(** * LazyStream: a shallow embedding of [lazystream/__init__.py]

    A [LazyStream] wraps one zero-argument callable, [_generator].  Calling it
    either returns a value or raises [StopIteration].  All state lives in what
    the callable captures: a wrapped iterator, the frames of the generator
    objects that [filter], [for_each], [map_enumerate] and [zip] create, the
    objects a fold function mutates.  The embedding passes that state
    explicitly: a callable is a function from the captured store to an
    outcome and the store afterwards, and an operator that creates a
    generator object returns a store with one more component.

    Loops of the Python code that need not terminate ([for value in
    self.__safe_iter()] over an endless producer) take fuel; [None] means
    that the fuel ran out before the call returned.

    [lazy_stream.py] is the same class without [reduce] and [zip].  Of the
    class, [__getitem__] and [__len__] take no part in the properties below
    and are left out; exceptions other than [StopIteration] are not
    modelled. *)

From Stdlib Require Import ZArith List Lia.
From stdpp Require Import base option list gmap.

Open Scope Z_scope.
Open Scope nat_scope.

Module LazyStream.

(** ** Outcomes, callables and generator objects *)

(** What a call of [self._generator()] or of [next(it)] gives back: a value,
    or the [StopIteration] exception. *)
Inductive outcome (A : Type) : Type :=
| Value (a : A)
| StopIteration.
Arguments Value {A} a.
Arguments StopIteration {A}.

(** [Callable[[], A]] whose closure captures the store [W]. *)
Definition Callable (W A : Type) : Type := nat -> W -> option (outcome A * W).

(** [Iterator[A]]: the callable is its [__next__]. *)
Definition Iterator (W A : Type) : Type := Callable W A.

(** [class LazyStream(Generic[A])], with [__init__] storing the callable. *)
Record LazyStream (W A : Type) : Type := __init__ { _generator : Callable W A }.
Arguments __init__ {W A} _generator.
Arguments _generator {W A} _.

(** A Python generator object: created and not yet started, suspended at a
    [yield] with its live locals, or finished. *)
Inductive generator (L : Type) : Type :=
| GEN_CREATED
| GEN_SUSPENDED (locals : L)
| GEN_CLOSED.
Arguments GEN_CREATED {L}.
Arguments GEN_SUSPENDED {L} locals.
Arguments GEN_CLOSED {L}.

Section Engine.
Context {W A : Type}.

(** [while limit is None or i < limit] *)
Definition within (limit : option Z) (i : Z) : bool :=
  match limit with
  | None => true
  | Some l => (i <? l)%Z
  end.

(** One pass of the loop body of [__safe_iter], entered with [i]:
    [i += 1; yield self._generator()], or [break] on [StopIteration]. *)
Definition safe_iter_body (limit : option Z) (self : LazyStream W A)
    (fuel : nat) (i : Z) (w : W) : option (outcome A * (generator Z * W)) :=
  if within limit i then
    match _generator self fuel w with
    | None => None
    | Some (Value v, w') => Some (Value v, (GEN_SUSPENDED (i + 1)%Z, w'))
    | Some (StopIteration, w') => Some (StopIteration, (GEN_CLOSED, w'))
    end
  else Some (StopIteration, (GEN_CLOSED, w)).

(** [next] on the generator object made by [self.__safe_iter(limit)]; the
    only local that survives a [yield] is [i]. *)
Definition __safe_iter (limit : option Z) (self : LazyStream W A)
    : Iterator (generator Z * W) A :=
  fun fuel '(g, w) =>
    match g with
    | GEN_CREATED => safe_iter_body limit self fuel 0%Z w
    | GEN_SUSPENDED i => safe_iter_body limit self fuel i w
    | GEN_CLOSED => Some (StopIteration, (GEN_CLOSED, w))
    end.

(** [return next(self.__safe_iter())]: a new generator object each time,
    dropped after one pull. *)
Definition __safe_next (self : LazyStream W A) : Callable W A :=
  fun fuel w =>
    match __safe_iter None self fuel (GEN_CREATED, w) with
    | None => None
    | Some (o, (_, w')) => Some (o, w')
    end.

Definition __next__ (self : LazyStream W A) : Callable W A :=
  __safe_next self.

Definition __iter__ (self : LazyStream W A) : Iterator (generator Z * W) A :=
  __safe_iter None self.

Definition from_lambda (func : Callable W A) : LazyStream W A :=
  __init__ func.

(** [LazyStream(lambda: next(iterator))] *)
Definition from_iterator (iterator : Iterator W A) : LazyStream W A :=
  __init__ (fun fuel w => iterator fuel w).

(** [for value in it: output.append(value)], [n] bounding the passes. *)
Fixpoint evaluate_loop {St : Type} (it : Iterator St A) (fuel n : nat)
    (output : list A) (st : St) : option (list A * St) :=
  match n with
  | O => None
  | S n' =>
      match it fuel st with
      | None => None
      | Some (StopIteration, st') => Some (output, st')
      | Some (Value value, st') =>
          evaluate_loop it fuel n' (output ++ [value]) st'
      end
  end.

Definition evaluate (limit : option Z) (self : LazyStream W A)
    (fuel : nat) (w : W) : option (list A * W) :=
  match evaluate_loop (__safe_iter limit self) fuel fuel [] (GEN_CREATED, w) with
  | None => None
  | Some (output, (_, w')) => Some (output, w')
  end.

End Engine.

(** ** Parallel evaluation *)

(** The pool as [par_evaluate] and [par_map] see it.  [submit] queues a
    call and returns a pending future at once; the pool runs the queued
    calls on its own, each call one atomic step on the store (the producer
    is not re-entered while it runs).  [run_order k] lists the submission
    indices of [k] queued calls in the order the pool runs them.  Awaiting a
    future waits until the pool has run its call, and the calls before it in
    the run order with it; [runs_ahead] is how many further queued calls the
    pool has finished by the time the caller has its results: none for a
    pool that works only when a result is awaited, the rest of the queue for
    a pool that is quicker than the caller. *)
Record Executor : Type := {
  run_order : nat -> list nat;
  runs_ahead : nat
}.

(** A future: still pending, or holding what its call returned or raised. *)
Abbreviation Future A := (option (outcome A)) (only parsing).

Section Parallel.
Context {W A : Type}.

(** The pool working through its whole queue: a queued, pending call is run
    and its future filled in; an index that names no pending future is
    skipped. *)
Fixpoint pool_run (task : Callable W A) (fuel : nat) (order : list nat)
    (futures : list (Future A)) (w : W) : option (list (Future A) * W) :=
  match order with
  | [] => Some (futures, w)
  | j :: order' =>
      match futures !! j with
      | Some None =>
          match task fuel w with
          | None => None
          | Some (o, w') => pool_run task fuel order' (<[j := Some o]> futures) w'
          end
      | _ => pool_run task fuel order' futures w
      end
  end.

(** The pool working through its queue until future [j] is done, and what
    is left of the queue then.  A future whose call is never run is never
    done. *)
Fixpoint pool_run_until (task : Callable W A) (fuel : nat) (j : nat)
    (order : list nat) (futures : list (Future A)) (w : W)
    : option (list nat * list (Future A) * W) :=
  match futures !! j with
  | Some (Some _) => Some (order, futures, w)
  | _ =>
      match order with
      | [] => None
      | i :: order' =>
          match futures !! i with
          | Some None =>
              match task fuel w with
              | None => None
              | Some (o, w') =>
                  pool_run_until task fuel j order' (<[i := Some o]> futures) w'
              end
          | _ => pool_run_until task fuel j order' futures w
          end
      end
  end.

(** [future.result()] for the future at index [j]: waits until it is done,
    then returns its value or raises what its call raised. *)
Definition result (task : Callable W A) (fuel : nat) (j : nat)
    (order : list nat) (futures : list (Future A)) (w : W)
    : option (outcome A * (list nat * list (Future A) * W)) :=
  match pool_run_until task fuel j order futures w with
  | None => None
  | Some (order', futures', w') =>
      match futures' !! j with
      | Some (Some o) => Some (o, (order', futures', w'))
      | _ => None
      end
  end.

(** [for future in futures: try: output.append(future.result()) except
    StopIteration: break], over the futures at the indices [js].  The
    futures after the one that raised are not awaited. *)
Fixpoint collect (task : Callable W A) (fuel : nat) (js : list nat)
    (order : list nat) (futures : list (Future A)) (output : list A) (w : W)
    : option (list A * (list nat * list (Future A) * W)) :=
  match js with
  | [] => Some (output, (order, futures, w))
  | j :: js' =>
      match result task fuel j order futures w with
      | None => None
      | Some (Value v, (order', futures', w')) =>
          collect task fuel js' order' futures' (output ++ [v]) w'
      | Some (StopIteration, st) => Some (output, st)
      end
  end.

(** The pool running up to [n] more of its queued calls while the caller is
    busy; a call that has not returned is still in flight and has left no
    mark on the store. *)
Fixpoint pool_run_ahead (task : Callable W A) (fuel : nat) (n : nat)
    (order : list nat) (futures : list (Future A)) (w : W) : W :=
  match n, order with
  | S n', i :: order' =>
      match futures !! i with
      | Some None =>
          match task fuel w with
          | None => w
          | Some (o, w') =>
              pool_run_ahead task fuel n' order' (<[i := Some o]> futures) w'
          end
      | _ => pool_run_ahead task fuel n order' futures w
      end
  | _, _ => w
  end.

(** [while len(futures) < limit:
        futures.append(executor.submit(self._generator))],
    [n] bounding the passes. *)
Fixpoint submit_loop (n : nat) (limit : Z) (futures : list (Future A))
    : list (Future A) :=
  match n with
  | O => futures
  | S n' =>
      if (Z.of_nat (length futures) <? limit)%Z
      then submit_loop n' limit (futures ++ [None])
      else futures
  end.

(** All futures are queued before any is awaited; they are then awaited in
    the order of the list, up to the first that raises [StopIteration].
    The store returned is the one at the moment the list is handed back:
    the calls the awaited futures needed have been made, and as many more
    as the pool runs ahead. *)
Definition par_evaluate (limit : Z) (executor : Executor)
    (self : LazyStream W A) (fuel : nat) (w : W) : option (list A * W) :=
  let futures := submit_loop (Z.to_nat limit) limit [] in
  match collect (_generator self) fuel (seq 0 (length futures))
          (run_order executor (length futures)) futures [] w with
  | None => None
  | Some (output, (order', futures', w')) =>
      Some (output,
            pool_run_ahead (_generator self) fuel (runs_ahead executor)
              order' futures' w')
  end.

End Parallel.

(** ** Fold *)

(** Accumulators are Python objects: the heap maps an object's identity to
    its current content, and a fold function receives and returns
    identities. *)
Abbreviation loc := nat (only parsing).

(** The two ways a Python fold function treats its accumulator. *)
Inductive fold_function (B A : Type) : Type :=
| Pure (f : B -> A -> B)      (* builds a new object: [lambda acc, x: acc + x] *)
| InPlace (f : B -> A -> B).  (* mutates [acc] and returns it: [acc.append(x)] *)
Arguments Pure {B A} f.
Arguments InPlace {B A} f.

Section Reduce.
Context {W A B : Type}.

(** [copy.deepcopy(accum)]: a new object with the same content.  (For an
    atom such as an [int] Python hands back the object itself; atoms cannot
    be mutated, so the new cell differs in nothing a program can see.) *)
Definition deepcopy (accum : loc) (h : gmap loc B) : option (loc * gmap loc B) :=
  match h !! accum with
  | None => None
  | Some b => let l := fresh (dom h) in Some (l, <[l := b]> h)
  end.

(** [func(accum, value)] *)
Definition call (func : fold_function B A) (accum : loc) (value : A)
    (h : gmap loc B) : option (loc * gmap loc B) :=
  match h !! accum with
  | None => None
  | Some b =>
      match func with
      | Pure f => let l := fresh (dom h) in Some (l, <[l := f b value]> h)
      | InPlace f => Some (accum, <[accum := f b value]> h)
      end
  end.

(** [for value in it: accum = func(accum, value)] *)
Fixpoint reduce_loop {St : Type} (it : Iterator St A)
    (func : fold_function B A) (fuel n : nat) (accum : loc)
    (st : St) (h : gmap loc B) : option (loc * St * gmap loc B) :=
  match n with
  | O => None
  | S n' =>
      match it fuel st with
      | None => None
      | Some (StopIteration, st') => Some (accum, st', h)
      | Some (Value value, st') =>
          match call func accum value h with
          | None => None
          | Some (accum', h') => reduce_loop it func fuel n' accum' st' h'
          end
      end
  end.

Definition reduce (func : fold_function B A) (accum : loc)
    (limit : option Z) (self : LazyStream W A) (fuel : nat)
    (w : W) (h : gmap loc B) : option (loc * W * gmap loc B) :=
  match deepcopy accum h with
  | None => None
  | Some (accum, h) =>
      match reduce_loop (__safe_iter limit self) func fuel fuel accum
              (GEN_CREATED, w) h with
      | None => None
      | Some (accum, (_, w'), h') => Some (accum, w', h')
      end
  end.

End Reduce.

(** ** Composition operators

    Each operator is an expression evaluated in a store: it returns the new
    stream together with the store after the call, which holds the generator
    object the operator created, if any, next to the untouched store of
    [self]. *)

Section Operators.
Context {W A B : Type}.

(** [LazyStream(lambda: func(self.__safe_next()))] *)
Definition map (func : A -> B) (self : LazyStream W A) (w : W)
    : LazyStream W B * W :=
  (__init__ (fun fuel w =>
     match __safe_next self fuel w with
     | None => None
     | Some (Value a, w') => Some (Value (func a), w')
     | Some (StopIteration, w') => Some (StopIteration, w')
     end), w).

(** [LazyStream(lambda: executor.submit(func, self.__safe_next()).result())]:
    the argument is pulled on the calling thread before [submit] is called,
    so [StopIteration] from the source leaves the pool untouched; otherwise
    one call of [func] is queued and its future awaited at once. *)
Definition par_map (func : A -> B) (executor : Executor)
    (self : LazyStream W A) (w : W) : LazyStream W B * W :=
  (__init__ (fun fuel w =>
     match __safe_next self fuel w with
     | None => None
     | Some (StopIteration, w') => Some (StopIteration, w')
     | Some (Value a, w') =>
         match pool_run (fun _ w => Some (Value (func a), w)) fuel
                 (run_order executor 1) [None] w' with
         | None => None
         | Some (futures, w'') =>
             match futures !! 0 with
             | Some (Some o) => Some (o, w'')
             | _ => None
             end
         end
     end), w).

(** The generator [iterator()] of [map_enumerate]; its live local is the
    [enumerate] object: the running count and the [__safe_iter] generator
    it reads. *)
Definition map_enumerate_step (func : Z -> A -> B) (self : LazyStream W A)
    (fuel : nat) (count : Z) (it : generator Z) (w : W)
    : option (outcome B * (generator (Z * generator Z) * W)) :=
  match __safe_iter None self fuel (it, w) with
  | None => None
  | Some (StopIteration, (_, w')) => Some (StopIteration, (GEN_CLOSED, w'))
  | Some (Value value, (it', w')) =>
      Some (Value (func count value), (GEN_SUSPENDED ((count + 1)%Z, it'), w'))
  end.

Definition map_enumerate_iterator (func : Z -> A -> B) (self : LazyStream W A)
    : Iterator (generator (Z * generator Z) * W) B :=
  fun fuel '(g, w) =>
    match g with
    | GEN_CREATED => map_enumerate_step func self fuel 0%Z GEN_CREATED w
    | GEN_SUSPENDED (count, it) => map_enumerate_step func self fuel count it w
    | GEN_CLOSED => Some (StopIteration, (GEN_CLOSED, w))
    end.

Definition map_enumerate (func : Z -> A -> B) (self : LazyStream W A) (w : W)
    : LazyStream (generator (Z * generator Z) * W) B
      * (generator (Z * generator Z) * W) :=
  (from_iterator (map_enumerate_iterator func self), (GEN_CREATED, w)).

(** The generator [iterator()] of [filter]:
    [for value in self.__safe_iter(): if predicate(value): yield value].
    Its live local is the [__safe_iter] generator of the [for]. *)
Fixpoint filter_loop (predicate : A -> bool) (self : LazyStream W A)
    (fuel n : nat) (it : generator Z) (w : W)
    : option (outcome A * (generator (generator Z) * W)) :=
  match n with
  | O => None
  | S n' =>
      match __safe_iter None self fuel (it, w) with
      | None => None
      | Some (StopIteration, (_, w')) => Some (StopIteration, (GEN_CLOSED, w'))
      | Some (Value value, (it', w')) =>
          if predicate value then Some (Value value, (GEN_SUSPENDED it', w'))
          else filter_loop predicate self fuel n' it' w'
      end
  end.

Definition filter_iterator (predicate : A -> bool) (self : LazyStream W A)
    : Iterator (generator (generator Z) * W) A :=
  fun fuel '(g, w) =>
    match g with
    | GEN_CREATED => filter_loop predicate self fuel fuel GEN_CREATED w
    | GEN_SUSPENDED it => filter_loop predicate self fuel fuel it w
    | GEN_CLOSED => Some (StopIteration, (GEN_CLOSED, w))
    end.

Definition filter (predicate : A -> bool) (self : LazyStream W A) (w : W)
    : LazyStream (generator (generator Z) * W) A
      * (generator (generator Z) * W) :=
  (from_iterator (filter_iterator predicate self), (GEN_CREATED, w)).

(** The generator [iterator()] of [for_each]:
    [for value in self.__safe_iter(): func(value); yield value].
    [func] is called for its effect on the store. *)
Definition for_each_step (func : A -> W -> W) (self : LazyStream W A)
    (fuel : nat) (it : generator Z) (w : W)
    : option (outcome A * (generator (generator Z) * W)) :=
  match __safe_iter None self fuel (it, w) with
  | None => None
  | Some (StopIteration, (_, w')) => Some (StopIteration, (GEN_CLOSED, w'))
  | Some (Value value, (it', w')) =>
      Some (Value value, (GEN_SUSPENDED it', func value w'))
  end.

Definition for_each_iterator (func : A -> W -> W) (self : LazyStream W A)
    : Iterator (generator (generator Z) * W) A :=
  fun fuel '(g, w) =>
    match g with
    | GEN_CREATED => for_each_step func self fuel GEN_CREATED w
    | GEN_SUSPENDED it => for_each_step func self fuel it w
    | GEN_CLOSED => Some (StopIteration, (GEN_CLOSED, w))
    end.

Definition for_each (func : A -> W -> W) (self : LazyStream W A) (w : W)
    : LazyStream (generator (generator Z) * W) A
      * (generator (generator Z) * W) :=
  (from_iterator (for_each_iterator func self), (GEN_CREATED, w)).

(** [next] on the built-in [zip(self.__safe_iter(), other.__safe_iter())]:
    it asks its iterators in turn and gives up at the first that is
    exhausted, keeping no flag of its own.  Both generators exist from the
    call of [zip] on. *)
Definition zip_next (self : LazyStream W A) (other : LazyStream W B)
    : Iterator (generator Z * generator Z * W) (A * B) :=
  fun fuel '(ita, itb, w) =>
    match __safe_iter None self fuel (ita, w) with
    | None => None
    | Some (StopIteration, (ita', w1)) => Some (StopIteration, (ita', itb, w1))
    | Some (Value a, (ita', w1)) =>
        match __safe_iter None other fuel (itb, w1) with
        | None => None
        | Some (StopIteration, (itb', w2)) =>
            Some (StopIteration, (ita', itb', w2))
        | Some (Value b, (itb', w2)) => Some (Value (a, b), (ita', itb', w2))
        end
    end.

Definition zip (self : LazyStream W A) (other : LazyStream W B) (w : W)
    : LazyStream (generator Z * generator Z * W) (A * B)
      * (generator Z * generator Z * W) :=
  (from_iterator (zip_next self other), (GEN_CREATED, GEN_CREATED, w)).

End Operators.

(** ** Sources and probes used to state the properties *)

Section Sources.
Context {A : Type}.

(** [iter(xs)] for a list [xs]; the store is what is still to come. *)
Definition list_iterator : Iterator (list A) A :=
  fun _ w =>
    match w with
    | [] => Some (StopIteration, [])
    | x :: w' => Some (Value x, w')
    end.

(** A callable whose captured state is the first, or the second, part of
    a larger store. *)
Definition on_fst {W1 W2 : Type} (g : Callable W1 A) : Callable (W1 * W2) A :=
  fun fuel '(w1, w2) =>
    match g fuel w1 with
    | None => None
    | Some (o, w1') => Some (o, (w1', w2))
    end.

Definition on_snd {W1 W2 : Type} (g : Callable W2 A) : Callable (W1 * W2) A :=
  fun fuel '(w1, w2) =>
    match g fuel w2 with
    | None => None
    | Some (o, w2') => Some (o, (w1, w2'))
    end.

(** A spy around a callable: every invocation first appends [tag] to a
    log kept in the store, then runs the callable. *)
Definition logged {W T : Type} (tag : T) (g : Callable W A)
    : Callable (list T * W) A :=
  fun fuel '(log, w) =>
    match g fuel w with
    | None => None
    | Some (o, w') => Some (o, (log ++ [tag], w'))
    end.

(** A callable that never returns. *)
Definition hangs {W : Type} : Callable W A := fun _ _ => None.

End Sources.

(** [LazyStream.from_iterator(iter(xs))] with a spy on its producer. *)
Definition source {A : Type} : LazyStream (list unit * list A) A :=
  __init__ (logged tt (_generator (from_iterator list_iterator))).

(** Which of the two producers of a [zip] was called. *)
Inductive side : Type := Self | Other.

(** Two independent list sources in one store, each with a spy that writes
    to a common log: [self] reads the first list, [other] the second. *)
Definition self_source {A B : Type}
    : LazyStream (list side * (list A * list B)) A :=
  __init__ (logged Self (on_fst (_generator (from_iterator list_iterator)))).

Definition other_source {A B : Type}
    : LazyStream (list side * (list A * list B)) B :=
  __init__ (logged Other (on_snd (_generator (from_iterator list_iterator)))).

(** A pool that runs its queue in submission order and works only when a
    result is awaited. *)
Definition in_order : Executor :=
  {| run_order := fun k => seq 0 k; runs_ahead := 0 |}.

(** A pool with a fixed order of its own, working only when a result is
    awaited. *)
Definition in_the_order (order : list nat) : Executor :=
  {| run_order := fun _ => order; runs_ahead := 0 |}.

(** A producer that counts its calls: 0 on the first, [StopIteration] on
    the second, and no return from the third on. *)
Definition yields_stops_hangs : LazyStream nat nat :=
  from_lambda (fun _ n =>
    match n with
    | 0 => Some (Value 0, 1)
    | 1 => Some (StopIteration, 2)
    | _ => None
    end).

(** The same pool, [n] calls ahead of what is awaited. *)
Definition ahead_by (n : nat) (executor : Executor) : Executor :=
  {| run_order := run_order executor; runs_ahead := n |}.

End LazyStream.


Import LazyStream.

(** * Vocabulary of the statements *)

(** Where a [__safe_iter] generator resumes: the value of [i] it holds. *)
Definition resume_at (g : generator Z) : option Z :=
  match g with
  | GEN_CREATED => Some 0%Z
  | GEN_SUSPENDED i => Some i
  | GEN_CLOSED => None
  end.

(** The [__safe_iter] generator that the [for] of a running [filter] frame
    reads; a finished frame has none. *)
Definition inner_iter (G : generator (generator Z)) : option (generator Z) :=
  match G with
  | GEN_CREATED => Some GEN_CREATED
  | GEN_SUSPENDED it => Some it
  | GEN_CLOSED => None
  end.

(** How many passes [__safe_iter(limit)] still allows when it holds [i];
    without a limit, more than the source has. *)
Definition passes_left {A : Type} (limit : option Z) (i : Z) (xs : list A)
    : nat :=
  match limit with
  | None => S (length xs)
  | Some l => Z.to_nat (l - i)
  end.

(** [func] applied to the value of a pull, if it has one. *)
Definition through {A B St : Type} (func : A -> B)
    (r : option (outcome A * St)) : option (outcome B * St) :=
  match r with
  | None => None
  | Some (Value a, st) => Some (Value (func a), st)
  | Some (StopIteration, st) => Some (StopIteration, st)
  end.

(** A value the predicate of a [filter] turns down. *)
Definition rejected {A : Type} (predicate : A -> bool) (x : A) : Prop :=
  predicate x = false.

(** The calls a drained [zip] makes: [self] then [other] for every pair,
    then the call, or the two calls, that meet the exhausted side. *)
Definition zip_calls {A B : Type} (xs : list A) (ys : list B) : list side :=
  flat_map (fun _ => [Self; Other]) (combine xs ys)
  ++ (if length xs <=? length ys then [Self] else [Self; Other]).

(** A [zip] one of whose two [__safe_iter] generators has finished. *)
Definition zip_over {W : Type} (st : generator Z * generator Z * W) : Prop :=
  st.1.1 = GEN_CLOSED \/ st.1.2 = GEN_CLOSED.

(** The function a fold function computes on contents. *)
Definition on_contents {A B : Type} (func : fold_function B A) : B -> A -> B :=
  match func with
  | Pure f => f
  | InPlace f => f
  end.

(** [accum = func(accum, value)] for each value of [ys] in turn. *)
Fixpoint call_all {A B : Type} (func : fold_function B A) (ys : list A)
    (accum : nat) (h : gmap nat B) : option (nat * gmap nat B) :=
  match ys with
  | [] => Some (accum, h)
  | y :: ys' =>
      match call func accum y h with
      | None => None
      | Some (accum', h') => call_all func ys' accum' h'
      end
  end.

(** What the call that the pool runs at place [q] receives from a list
    source. *)
Definition outcome_at {A : Type} (xs : list A) (q : nat) : outcome A :=
  match xs !! q with
  | Some x => Value x
  | None => StopIteration
  end.

(** The futures when the pool has run the first [m] calls of its run order
    over a list source: the future of the call run at place [q] holds what
    that call received if [q < m], and is pending otherwise. *)
Definition ran_to {A : Type} (order : list nat) (xs : list A) (m : nat)
    (futures : list (option (outcome A))) : Prop :=
  length futures = length order /\
  forall q j, order !! q = Some j ->
    futures !! j = Some (if decide (q < m) then Some (outcome_at xs q) else None).

(** The store of a spied list source after [m] producer calls. *)
Definition after_calls {A : Type} (log : list unit) (xs : list A) (m : nat)
    : list unit * list A :=
  (log ++ replicate m tt, drop m xs).

(** Pulling [self] again and again from store [w] gives the values [ys], in
    this order, then [StopIteration], and leaves store [w']. *)
Inductive unfolds {W A : Type} (self : LazyStream W A) (fuel : nat)
    : W -> list A -> W -> Prop :=
| unfolds_stop w w' :
    _generator self fuel w = Some (StopIteration, w') ->
    unfolds self fuel w [] w'
| unfolds_value w v w1 ys w' :
    _generator self fuel w = Some (Value v, w1) ->
    unfolds self fuel w1 ys w' ->
    unfolds self fuel w (v :: ys) w'.

(** The count and the [__safe_iter] generator held by the [enumerate] of a
    running [map_enumerate] frame. *)
Definition enumerate_at (G : generator (Z * generator Z))
    : option (Z * generator Z) :=
  match G with
  | GEN_CREATED => Some (0%Z, GEN_CREATED)
  | GEN_SUSPENDED (count, it) => Some (count, it)
  | GEN_CLOSED => None
  end.

(** A list cut into consecutive pairs; an odd last element is dropped. *)
Fixpoint pair_up {A : Type} (xs : list A) : list (A * A) :=
  match xs with
  | x :: y :: xs' => (x, y) :: pair_up xs'
  | _ => []
  end.

(** A stream placed next to a journal that its producer does not touch. *)
Definition beside {J W A : Type} (self : LazyStream W A)
    : LazyStream (J * W) A :=
  __init__ (on_snd (_generator self)).

(** A side effect that writes to the journal only. *)
Definition journals {J W A : Type} (effect : A -> J -> J)
    : A -> J * W -> J * W :=
  fun a '(j, w) => (effect a j, w).

(** * Properties *)

(** ** The iteration engine *)

Section EngineFacts.
Context {W A : Type}.
Implicit Types (self : LazyStream W A) (g : generator Z) (w : W).

Lemma safe_iter_unbounded self fuel g w i :
  resume_at g = Some i ->
  __safe_iter None self fuel (g, w) =
    match _generator self fuel w with
    | None => None
    | Some (Value v, w') => Some (Value v, (GEN_SUSPENDED (i + 1)%Z, w'))
    | Some (StopIteration, w') => Some (StopIteration, (GEN_CLOSED, w'))
    end.
Proof.
  destruct g; simpl; intros E; inversion E; subst; reflexivity.
Qed.

Lemma safe_iter_closed (limit : option Z) self fuel w :
  __safe_iter limit self fuel (GEN_CLOSED, w) = Some (StopIteration, (GEN_CLOSED, w)).
Proof. reflexivity. Qed.

Lemma safe_iter_created (limit : option Z) self fuel w :
  __safe_iter limit self fuel (GEN_CREATED, w) =
  __safe_iter limit self fuel (GEN_SUSPENDED 0%Z, w).
Proof. reflexivity. Qed.

Lemma evaluate_loop_created (limit : option Z) self fuel n output w :
  evaluate_loop (__safe_iter limit self) fuel n output (GEN_CREATED, w) =
  evaluate_loop (__safe_iter limit self) fuel n output (GEN_SUSPENDED 0%Z, w).
Proof. destruct n; reflexivity. Qed.

(** C8. [evaluate(0)] returns the empty list and leaves the store exactly as
    it was: the producer is not called, whatever it is (even one that would
    never return). *)
Theorem evaluate_zero self fuel w :
  evaluate (Some 0%Z) self (S fuel) w = Some ([], w).
Proof. reflexivity. Qed.

(** C9. The single pull [__next__] is one call of the producer and nothing
    else: when the producer raises [StopIteration] so does [__next__] (no
    default value is made up), and when it returns a value [__next__]
    returns that value, the store having seen exactly that one call. *)
Theorem next_pulls_once self fuel w :
  __next__ self fuel w = _generator self fuel w /\
  (forall w', _generator self fuel w = Some (StopIteration, w') ->
     __next__ self fuel w = Some (StopIteration, w')) /\
  (forall a w', _generator self fuel w = Some (Value a, w') ->
     __next__ self fuel w = Some (Value a, w')).
Proof.
  assert (E : __next__ self fuel w = _generator self fuel w).
  { unfold __next__, __safe_next.
    rewrite (safe_iter_unbounded self fuel GEN_CREATED w 0%Z eq_refl).
    destruct (_generator self fuel w) as [[[a|] w']|]; reflexivity. }
  split; [exact E|]. split; intros; rewrite E; assumption.
Qed.

End EngineFacts.

(** On an exhausted list the pull raises, on a list with a head it hands
    the head over and logs one call. *)
Lemma next_pulls_once_witness :
  __next__ (@source nat) 0 ([], []) = Some (StopIteration, ([tt], [])) /\
  __next__ (@source nat) 0 ([], [7; 8]) = Some (Value 7, ([tt], [8])).
Proof.
  destruct (next_pulls_once (@source nat) 0 ([], [])) as (_ & Hstop & _).
  destruct (next_pulls_once (@source nat) 0 ([], [7; 8])) as (_ & _ & Hval).
  split; [apply Hstop | apply Hval]; reflexivity.
Defined.

(** ** Finite sources *)

Section FiniteSource.
Context {A : Type}.
Implicit Types (xs : list A) (log : list unit).

Lemma source_pull fuel log xs :
  _generator source fuel (log, xs) =
    match xs with
    | [] => Some (StopIteration, (log ++ [tt], []))
    | x :: xs' => Some (Value x, (log ++ [tt], xs'))
    end.
Proof. destruct xs; reflexivity. Qed.

Lemma passes_left_within limit i xs :
  within limit i = true ->
  exists k, passes_left limit i xs = S k /\
    forall x xs', xs = x :: xs' -> passes_left limit (i + 1)%Z xs' = k.
Proof.
  destruct limit as [l|]; simpl; intros H.
  - apply Z.ltb_lt in H. exists (Z.to_nat (l - (i + 1))). split; [lia|].
    intros; reflexivity.
  - exists (length xs). split; [reflexivity|]. intros x xs' ->. reflexivity.
Qed.

Lemma passes_left_beyond limit i xs :
  within limit i = false -> passes_left limit i xs = 0.
Proof.
  destruct limit as [l|]; simpl; intros H; [|discriminate].
  apply Z.ltb_ge in H. lia.
Qed.

Lemma replicate_snoc {T} (t : T) (l : list T) k :
  (l ++ [t]) ++ replicate k t = l ++ replicate (S k) t.
Proof. rewrite <- app_assoc. reflexivity. Qed.

(** Draining a list source through [__safe_iter(limit)]: the values come out
    in source order, one producer call per pass, plus the call that finds
    the source exhausted when the limit does not stop the loop first. *)
Lemma evaluate_loop_source limit xs : forall n fuel output i log,
  length xs < n ->
  evaluate_loop (__safe_iter limit source) fuel n output
      (GEN_SUSPENDED i, (log, xs)) =
    let k := passes_left limit i xs in
    Some (output ++ take k xs,
          (GEN_CLOSED, (log ++ replicate (k `min` S (length xs)) tt, drop k xs))).
Proof.
  induction xs as [|x xs IH]; intros n fuel output i log Hn;
    (destruct n as [|n]; [simpl in Hn; lia|]);
    cbn [evaluate_loop __safe_iter]; unfold safe_iter_body;
    destruct (within limit i) eqn:Hw.
  - destruct (passes_left_within _ _ [] Hw) as (k & -> & _).
    rewrite source_pull. cbn. rewrite app_nil_r, Nat.min_0_r. reflexivity.
  - rewrite (passes_left_beyond _ _ _ Hw). cbn. rewrite !app_nil_r. reflexivity.
  - destruct (passes_left_within _ _ (x :: xs) Hw) as (k & Hk & Hk').
    rewrite source_pull, IH by (simpl in Hn; lia).
    rewrite (Hk' x xs eq_refl). cbv zeta. rewrite Hk. cbn [take drop length].
    rewrite <- app_assoc, replicate_snoc. reflexivity.
  - rewrite (passes_left_beyond _ _ _ Hw). cbn. rewrite !app_nil_r. reflexivity.
Qed.

Lemma evaluate_source limit xs extra log :
  evaluate limit source (S (length xs) + extra) (log, xs) =
    let k := passes_left limit 0%Z xs in
    Some (take k xs, (log ++ replicate (k `min` S (length xs)) tt, drop k xs)).
Proof.
  unfold evaluate.
  rewrite evaluate_loop_created, evaluate_loop_source by lia.
  reflexivity.
Qed.

(** C1 (as amended). Draining a list source of length [N] with limit [L]:
    when [L >= N] the result is the whole list, in order, and nothing is
    left; when [0 <= L < N] the result is the first [L] elements, in order,
    the producer was called exactly [L] times, and the [N - L] elements
    after them are still in the source. *)
Theorem evaluate_limit xs (L : Z) (extra : nat) :
  let N := length xs in
  let run := evaluate (Some L) source (S N + extra) ([], xs) in
  ((Z.of_nat N <= L)%Z ->
     exists calls, run = Some (xs, (calls, [])) /\ N <= length calls) /\
  ((0 <= L < Z.of_nat N)%Z ->
     let l := Z.to_nat L in
     run = Some (take l xs, (replicate l tt, drop l xs)) /\
     length (take l xs) = l /\
     length (drop l xs) = N - l).
Proof.
  intros N run. subst run N. rewrite evaluate_source. cbn [passes_left app].
  rewrite Z.sub_0_r. split; intros HL.
  - eexists. rewrite take_ge, drop_ge by lia. split; [reflexivity|].
    rewrite length_replicate. lia.
  - cbv zeta. rewrite Nat.min_l by lia.
    rewrite length_take, length_drop. repeat split; lia.
Qed.

End FiniteSource.

(** Five elements: a limit of 7 returns them all, a limit of 2 returns the
    first two after two calls and leaves three. *)
Lemma evaluate_limit_witness :
  (exists calls, evaluate (Some 7%Z) source 6 ([], [1; 2; 3; 4; 5])
                   = Some ([1; 2; 3; 4; 5], (calls, [])) /\ 5 <= length calls) /\
  evaluate (Some 2%Z) source 6 ([], [1; 2; 3; 4; 5])
    = Some ([1; 2], ([tt; tt], [3; 4; 5])).
Proof.
  split.
  - apply (proj1 (evaluate_limit [1; 2; 3; 4; 5] 7 0)). simpl. lia.
  - apply (proj2 (evaluate_limit [1; 2; 3; 4; 5] 2 0)). simpl. lia.
Defined.

(** The reading that for [L < N] it is [L] elements that are left un-pulled
    fails: with [N = 3] and [L = 1] two elements are left. *)
Lemma evaluate_limit_leaves_N_minus_L :
  exists output calls rest,
    evaluate (Some 1%Z) source 4 ([], [10; 20; 30]) = Some (output, (calls, rest)) /\
    length output = 1 /\ length calls = 1 /\ length rest <> 1.
Proof. exists [10], [tt], [20; 30]. repeat split. simpl. lia. Qed.

(** ** map *)

Section MapFacts.
Context {W A B : Type} (func : A -> B) (self : LazyStream W A) (w0 : W).

Lemma map_generator fuel w :
  _generator (map func self w0).1 fuel w = through func (_generator self fuel w).
Proof.
  cbn. unfold __safe_next.
  rewrite (safe_iter_unbounded self fuel GEN_CREATED w 0%Z eq_refl).
  destruct (_generator self fuel w) as [[[a|] w']|]; reflexivity.
Qed.

Lemma safe_iter_map limit fuel st :
  __safe_iter limit (map func self w0).1 fuel st =
  through func (__safe_iter limit self fuel st).
Proof.
  destruct st as [g w].
  destruct g as [|i|]; cbn [__safe_iter]; unfold safe_iter_body; try reflexivity;
    (destruct (within limit _); [|reflexivity]);
    rewrite map_generator;
    destruct (_generator self fuel w) as [[[a|] w']|]; reflexivity.
Qed.

Lemma evaluate_loop_map limit fuel : forall n output st,
  evaluate_loop (__safe_iter limit (map func self w0).1) fuel n
      (List.map func output) st =
  prod_map (List.map func) id <$>
    evaluate_loop (__safe_iter limit self) fuel n output st.
Proof.
  induction n as [|n IH]; intros output st; [reflexivity|].
  cbn [evaluate_loop]. rewrite safe_iter_map.
  destruct (__safe_iter limit self fuel st) as [[[a|] st']|]; cbn [through];
    try reflexivity.
  rewrite <- IH, List.map_app. reflexivity.
Qed.

Lemma evaluate_map limit fuel w :
  evaluate limit (map func self w0).1 fuel w =
  prod_map (List.map func) id <$> evaluate limit self fuel w.
Proof.
  unfold evaluate.
  pose proof (evaluate_loop_map limit fuel fuel [] (GEN_CREATED, w)) as E.
  cbn [List.map] in E. rewrite E.
  destruct (evaluate_loop (__safe_iter limit self) fuel fuel [] (GEN_CREATED, w))
    as [[output [g w']]|]; reflexivity.
Qed.

End MapFacts.

(** C6. Functor law.  For every stream, limit and store, evaluating
    [map(f)] gives [f] applied element-wise to what evaluating the stream
    itself gives, with the same store afterwards (and does not return
    exactly when the latter does not); a pull of the mapped stream raises
    [StopIteration] whenever the pull of the source does.  For a list
    source both evaluations return: [map(f).evaluate()] is [f] over the
    list. *)
Theorem map_functor_law :
  (forall (W A B : Type) (f : A -> B) (self : LazyStream W A)
          (limit : option Z) (fuel : nat) (w : W),
     let mapped := (map f self w).1 in
     (map f self w).2 = w /\
     evaluate limit mapped fuel w =
       prod_map (List.map f) id <$> evaluate limit self fuel w /\
     (forall w', _generator self fuel w = Some (StopIteration, w') ->
                 _generator mapped fuel w = Some (StopIteration, w'))) /\
  (forall (A B : Type) (f : A -> B) (xs : list A) (extra : nat),
     let fuel := S (length xs) + extra in
     exists w',
       evaluate None source fuel ([], xs) = Some (xs, w') /\
       evaluate None (map f source ([], xs)).1 fuel ([], xs)
         = Some (List.map f xs, w')).
Proof.
  split.
  - intros W A B f self limit fuel w mapped. subst mapped.
    split; [reflexivity|]. split; [apply evaluate_map|].
    intros w' H. rewrite map_generator, H. reflexivity.
  - intros A B f xs extra fuel. subst fuel.
    rewrite evaluate_map, evaluate_source. cbn [passes_left].
    rewrite take_ge, drop_ge by lia. eexists. split; reflexivity.
Qed.

Lemma map_functor_law_witness :
  _generator (map (fun x => x * 10) (@source nat) ([], [])).1 0 ([], [])
    = Some (StopIteration, ([tt], [])) /\
  evaluate None (map (fun x => x * 10) source ([], [0; 1; 2; 3])).1 5
      ([], [0; 1; 2; 3])
    = Some ([0; 10; 20; 30], ([tt; tt; tt; tt; tt], [])).
Proof.
  split.
  - apply (proj1 map_functor_law _ _ _ (fun x => x * 10) (@source nat)
             None 0 ([], [])). reflexivity.
  - rewrite (proj1 (proj2 (proj1 map_functor_law _ _ _ (fun x => x * 10)
                             (@source nat) None 5 ([], [0; 1; 2; 3])))).
    reflexivity.
Defined.

(** ** filter *)

Section FilterFacts.
Context {A : Type} (predicate : A -> bool).
Implicit Types (xs : list A) (log : list unit).

Lemma filter_rejected xs : Forall (rejected predicate) xs -> List.filter predicate xs = [].
Proof.
  induction 1 as [|x xs Hx _ IH]; [reflexivity|].
  simpl. rewrite Hx. exact IH.
Qed.

Lemma first_match xs :
  Forall (rejected predicate) xs \/
  exists pre y rest,
    xs = pre ++ y :: rest /\ Forall (rejected predicate) pre /\ predicate y = true.
Proof.
  induction xs as [|x xs IH]; [left; constructor|].
  destruct (predicate x) eqn:Hx.
  - right. exists [], x, xs. repeat split; [constructor | exact Hx].
  - destruct IH as [IH | (pre & y & rest & -> & Hpre & Hy)].
    + left. constructor; assumption.
    + right. exists (x :: pre), y, rest. repeat split; [|exact Hy].
      constructor; assumption.
Qed.

(** One pull of the filtered list source that finds a match: the rejected
    values before it are pulled and dropped, the match is yielded, the rest
    stays in the source. *)
Lemma filter_loop_match pre : forall n fuel g i log y rest,
  resume_at g = Some i ->
  Forall (rejected predicate) pre -> predicate y = true -> length pre < n ->
  filter_loop predicate source fuel n g (log, pre ++ y :: rest) =
    Some (Value y,
          (GEN_SUSPENDED (GEN_SUSPENDED (i + Z.of_nat (S (length pre)))%Z),
           (log ++ replicate (S (length pre)) tt, rest))).
Proof.
  induction pre as [|x pre IH]; intros n fuel g i log y rest Hg Hpre Hy Hn;
    (destruct n as [|n]; [simpl in Hn; lia|]); cbn [filter_loop app];
    rewrite (safe_iter_unbounded _ _ _ _ _ Hg), source_pull.
  - rewrite Hy. reflexivity.
  - inversion Hpre as [|? ? Hx Hpre']; subst. rewrite Hx.
    rewrite (IH n fuel (GEN_SUSPENDED (i + 1)%Z) (i + 1)%Z _ y rest
               eq_refl Hpre' Hy)
      by (simpl in Hn; lia).
    rewrite replicate_snoc.
    replace (i + Z.of_nat (S (length (x :: pre))))%Z
      with (i + 1 + Z.of_nat (S (length pre)))%Z by (cbn [length]; lia).
    reflexivity.
Qed.

(** One pull that finds no match runs the source dry and raises. *)
Lemma filter_loop_dry xs : forall n fuel g i log,
  resume_at g = Some i -> Forall (rejected predicate) xs -> length xs < n ->
  filter_loop predicate source fuel n g (log, xs) =
    Some (StopIteration,
          (GEN_CLOSED, (log ++ replicate (S (length xs)) tt, []))).
Proof.
  induction xs as [|x xs IH]; intros n fuel g i log Hg Hxs Hn;
    (destruct n as [|n]; [simpl in Hn; lia|]); cbn [filter_loop];
    rewrite (safe_iter_unbounded _ _ _ _ _ Hg), source_pull.
  - reflexivity.
  - inversion Hxs as [|? ? Hx Hxs']; subst. rewrite Hx.
    rewrite (IH n fuel (GEN_SUSPENDED (i + 1)%Z) (i + 1)%Z _ eq_refl Hxs') by (simpl in Hn; lia).
    rewrite replicate_snoc. reflexivity.
Qed.

Lemma filter_iterator_running {W} (self : LazyStream W A) fuel G it w :
  inner_iter G = Some it ->
  filter_iterator predicate self fuel (G, w) =
  filter_loop predicate self fuel fuel it w.
Proof. destruct G; simpl; intros E; inversion E; reflexivity. Qed.

Lemma evaluate_loop_filter w0 : forall n xs fuel output go io G it i log,
  resume_at go = Some io -> inner_iter G = Some it -> resume_at it = Some i ->
  length xs < n -> length xs < fuel ->
  evaluate_loop (__safe_iter None (filter predicate source w0).1) fuel n output
      (go, (G, (log, xs))) =
    Some (output ++ List.filter predicate xs,
          (GEN_CLOSED, (GEN_CLOSED, (log ++ replicate (S (length xs)) tt, [])))).
Proof.
  induction n as [|n IH]; intros xs fuel output go io G it i log Hgo HG Hit Hn Hfuel;
    [lia|].
  cbn [evaluate_loop]. rewrite (safe_iter_unbounded _ _ _ _ _ Hgo).
  cbn [filter from_iterator fst _generator].
  rewrite (filter_iterator_running _ _ _ _ _ HG).
  destruct (first_match xs) as [Hxs | (pre & y & rest & -> & Hpre & Hy)].
  - rewrite (filter_loop_dry _ _ _ _ _ _ Hit Hxs Hfuel).
    rewrite (filter_rejected _ Hxs), app_nil_r. reflexivity.
  - rewrite length_app in Hn, Hfuel. cbn [length] in Hn, Hfuel.
    rewrite (filter_loop_match _ _ _ _ _ _ _ _ Hit Hpre Hy) by lia.
    rewrite (IH rest fuel _ (GEN_SUSPENDED (io + 1)%Z) (io + 1)%Z
               (GEN_SUSPENDED (GEN_SUSPENDED (i + Z.of_nat (S (length pre)))%Z))
               _ _ _ eq_refl eq_refl eq_refl) by lia.
    rewrite List.filter_app, (filter_rejected _ Hpre). cbn [List.filter app].
    rewrite Hy, <- !app_assoc, <- replicate_add, length_app.
    cbn [app length]. reflexivity.
Qed.

End FilterFacts.

(** C5. For a list source [xs] and a predicate [p], [filter(p).evaluate()]
    returns the elements of [xs] that satisfy [p], in source order, where
    [evaluate()] of the source returns [xs].  A single pull of the filtered
    stream pulls the source until a value satisfies [p], dropping the
    values before it, and yields that value; when no remaining value
    satisfies [p] it runs the source dry and raises [StopIteration]. *)
Theorem filter_evaluate {A : Type} (p : A -> bool) (xs : list A) (extra : nat) :
  let fuel := S (length xs) + extra in
  let filtered := (filter p source ([], xs)).1 in
  evaluate None source fuel ([], xs)
    = Some (xs, (replicate (S (length xs)) tt, [])) /\
  evaluate None filtered fuel (filter p source ([], xs)).2
    = Some (List.filter p xs,
            (GEN_CLOSED, (replicate (S (length xs)) tt, []))) /\
  (forall G it i log pre y rest,
     inner_iter G = Some it -> resume_at it = Some i ->
     xs = pre ++ y :: rest -> Forall (rejected p) pre -> p y = true ->
     _generator filtered fuel (G, (log, xs))
       = Some (Value y,
               (GEN_SUSPENDED (GEN_SUSPENDED (i + Z.of_nat (S (length pre)))%Z),
                (log ++ replicate (S (length pre)) tt, rest)))) /\
  (forall G it i log,
     inner_iter G = Some it -> resume_at it = Some i ->
     Forall (rejected p) xs ->
     _generator filtered fuel (G, (log, xs))
       = Some (StopIteration,
               (GEN_CLOSED, (log ++ replicate (S (length xs)) tt, [])))).
Proof.
  intros fuel filtered. subst fuel filtered. repeat split.
  - rewrite evaluate_source. cbn [passes_left app].
    rewrite take_ge, drop_ge, Nat.min_id by lia. reflexivity.
  - unfold evaluate. cbn [filter snd].
    rewrite (evaluate_loop_filter p ([], xs) _ xs _ [] GEN_CREATED 0%Z
               GEN_CREATED GEN_CREATED 0%Z [] eq_refl eq_refl eq_refl) by lia.
    reflexivity.
  - intros G it i log pre y rest HG Hit -> Hpre Hy.
    cbn [filter from_iterator fst _generator].
    rewrite (filter_iterator_running _ _ _ _ _ _ HG).
    apply (filter_loop_match p pre _ _ it i log y rest Hit Hpre Hy).
    rewrite length_app. simpl. lia.
  - intros G it i log HG Hit Hxs.
    cbn [filter from_iterator fst _generator].
    rewrite (filter_iterator_running _ _ _ _ _ _ HG).
    apply (filter_loop_dry p xs _ _ it i log Hit Hxs). lia.
Qed.

(** Over [1, 3, 2, 5] the first pull of [filter(even)] drops 1 and 3 and
    yields 2; over [1, 3] it raises after running the source dry. *)
Lemma filter_evaluate_witness :
  _generator (filter Nat.even source ([], [1; 3; 2; 5])).1 5
      (GEN_CREATED, ([], [1; 3; 2; 5]))
    = Some (Value 2, (GEN_SUSPENDED (GEN_SUSPENDED 3%Z), ([tt; tt; tt], [5]))) /\
  _generator (filter Nat.even source ([], [1; 3])).1 3 (GEN_CREATED, ([], [1; 3]))
    = Some (StopIteration, (GEN_CLOSED, ([tt; tt; tt], []))).
Proof.
  split.
  - apply (proj1 (proj2 (proj2 (filter_evaluate Nat.even [1; 3; 2; 5] 0)))
             GEN_CREATED GEN_CREATED 0%Z [] [1; 3] 2 [5]);
      try reflexivity.
    repeat constructor.
  - apply (proj2 (proj2 (proj2 (filter_evaluate Nat.even [1; 3] 0)))
             GEN_CREATED GEN_CREATED 0%Z []);
      try reflexivity.
    repeat constructor.
Defined.

(** The scenario of the specification: a source counting 0, 1, 2, 3. *)
Example scenario_filter :
  evaluate None (filter Nat.even source ([], [0; 1; 2; 3])).1 5
      (filter Nat.even source ([], [0; 1; 2; 3])).2
    = Some ([0; 2], (GEN_CLOSED, ([tt; tt; tt; tt; tt], []))).
Proof. reflexivity. Qed.

Example scenario_map_enumerate :
  let '(tens, w1) := map (fun x => x * 10) source ([], [0; 1; 2; 3]) in
  let '(numbered, w2) := map_enumerate (fun i x => (i, x)) tens w1 in
  evaluate None numbered 5 w2
    = Some ([(0%Z, 0); (1%Z, 10); (2%Z, 20); (3%Z, 30)],
            (GEN_CLOSED, ([tt; tt; tt; tt; tt], []))).
Proof. reflexivity. Qed.

(** ** zip *)

Section ZipFacts.
Context {A B : Type}.
Implicit Types (xs : list A) (ys : list B) (log : list side).

Lemma self_pull fuel log xs ys :
  _generator self_source fuel (log, (xs, ys)) =
    match xs with
    | [] => Some (StopIteration, (log ++ [Self], ([], ys)))
    | x :: xs' => Some (Value x, (log ++ [Self], (xs', ys)))
    end.
Proof. destruct xs; reflexivity. Qed.

Lemma other_pull fuel log xs ys :
  _generator other_source fuel (log, (xs, ys)) =
    match ys with
    | [] => Some (StopIteration, (log ++ [Other], (xs, [])))
    | y :: ys' => Some (Value y, (log ++ [Other], (xs, ys')))
    end.
Proof. destruct ys; reflexivity. Qed.

Lemma combine_lookup xs : forall ys i,
  combine xs ys !! i =
    match xs !! i, ys !! i with
    | Some a, Some b => Some (a, b)
    | _, _ => None
    end.
Proof.
  induction xs as [|x xs IH]; intros [|y ys] [|i]; simpl; try reflexivity.
  - destruct (xs !! i); reflexivity.
  - apply IH.
Qed.

Lemma evaluate_loop_zip w0 xs : forall n ys fuel output go io ga ia gb ib log,
  resume_at go = Some io -> resume_at ga = Some ia -> resume_at gb = Some ib ->
  length xs < n ->
  exists ga' gb',
    evaluate_loop (__safe_iter None (zip self_source other_source w0).1)
        fuel n output (go, (ga, gb, (log, (xs, ys)))) =
      Some (output ++ combine xs ys,
            (GEN_CLOSED,
             (ga', gb',
              (log ++ zip_calls xs ys,
               (drop (S (length ys)) xs, drop (length xs) ys))))).
Proof.
  induction xs as [|x xs IH];
    intros n ys fuel output go io ga ia gb ib log Hgo Hga Hgb Hn;
    (destruct n as [|n]; [simpl in Hn; lia|]);
    cbn [evaluate_loop]; rewrite (safe_iter_unbounded _ _ _ _ _ Hgo);
    cbn [zip from_iterator fst _generator zip_next];
    rewrite (safe_iter_unbounded _ _ _ _ _ Hga), self_pull.
  - exists GEN_CLOSED, gb. unfold zip_calls. cbn. rewrite app_nil_r.
    reflexivity.
  - rewrite (safe_iter_unbounded _ _ _ _ _ Hgb), other_pull.
    destruct ys as [|y ys].
    + exists (GEN_SUSPENDED (ia + 1)%Z), GEN_CLOSED. unfold zip_calls. cbn.
      rewrite app_nil_r, <- app_assoc. reflexivity.
    + destruct (IH n ys fuel (output ++ [(x, y)]) (GEN_SUSPENDED (io + 1)%Z)
                  (io + 1)%Z (GEN_SUSPENDED (ia + 1)%Z) (ia + 1)%Z
                  (GEN_SUSPENDED (ib + 1)%Z) (ib + 1)%Z
                  ((log ++ [Self]) ++ [Other]) eq_refl eq_refl eq_refl)
        as (ga' & gb' & E); [simpl in Hn; lia|].
      exists ga', gb'. cbn [zip from_iterator fst _generator zip_next] in E.
      rewrite E. unfold zip_calls. cbn.
      rewrite <- !app_assoc. reflexivity.
Qed.

End ZipFacts.

(** C3. Zipping two list sources [xs] and [ys] and evaluating returns
    [combine xs ys]: [min (len xs) (len ys)] pairs, the [i]-th being
    [(xs[i], ys[i])], and nothing that is not a full pair.  The producers
    are called [self] then [other] for every pair; the stream ends at the
    first call that finds a side exhausted, which is a call of [self] when
    [xs] is not the longer list and the call of [other] right after one of
    [self] otherwise. *)
Theorem zip_evaluate {A B : Type} (xs : list A) (ys : list B) (extra : nat) :
  let fuel := S (length xs) + extra in
  let zipped := (LazyStream.zip self_source other_source ([], (xs, ys))).1 in
  let start := (LazyStream.zip self_source other_source ([], (xs, ys))).2 in
  (exists ga gb,
     evaluate None zipped fuel start =
       Some (combine xs ys,
             (ga, gb,
              (flat_map (fun _ => [Self; Other]) (combine xs ys)
               ++ (if length xs <=? length ys then [Self] else [Self; Other]),
               (drop (S (length ys)) xs, drop (length xs) ys))))) /\
  length (combine xs ys) = length xs `min` length ys /\
  (forall i, combine xs ys !! i =
     match xs !! i, ys !! i with
     | Some a, Some b => Some (a, b)
     | _, _ => None
     end).
Proof.
  intros fuel zipped start. subst fuel zipped start. repeat split.
  - unfold evaluate.
    destruct (evaluate_loop_zip ([], (xs, ys)) xs (S (length xs) + extra) ys
                (S (length xs) + extra) [] GEN_CREATED 0%Z GEN_CREATED 0%Z
                GEN_CREATED 0%Z [] eq_refl eq_refl eq_refl)
      as (ga & gb & E); [lia|].
    exists ga, gb. cbn [LazyStream.zip snd]. rewrite E. reflexivity.
  - apply length_combine.
  - apply combine_lookup.
Qed.

Example zip_three_two :
  evaluate None (LazyStream.zip self_source other_source
                   ([], ([1; 2; 3], [true; false]))).1 4
      (LazyStream.zip self_source other_source ([], ([1; 2; 3], [true; false]))).2
    = Some ([(1, true); (2, false)],
            (GEN_SUSPENDED 3%Z, GEN_CLOSED,
             ([Self; Other; Self; Other; Self; Other], ([], [])))).
Proof. reflexivity. Qed.

(** ** Exhaustion of the generator-backed operators *)

Lemma safe_iter_stop {W A : Type} (limit : option Z) (self : LazyStream W A)
    fuel st st' :
  __safe_iter limit self fuel st = Some (StopIteration, st') ->
  st'.1 = GEN_CLOSED.
Proof.
  destruct st as [[|i|] w]; cbn [__safe_iter]; unfold safe_iter_body;
    try (intros [= <-]; reflexivity);
    (destruct (within limit _); [|intros [= <-]; reflexivity]);
    destruct (_generator self fuel w) as [[[a|] w']|];
    try discriminate; intros [= <-]; reflexivity.
Qed.

Section Exhaustion.
Context {W A B : Type}.
Implicit Types (self : LazyStream W A) (w : W).

Lemma filter_loop_stop (p : A -> bool) self fuel : forall n it w st,
  filter_loop p self fuel n it w = Some (StopIteration, st) ->
  st.1 = GEN_CLOSED.
Proof.
  induction n as [|n IH]; intros it w st; cbn [filter_loop]; [discriminate|].
  destruct (__safe_iter None self fuel (it, w)) as [[[a|] [it' w']]|];
    [|intros [= <-]; reflexivity|discriminate].
  destruct (p a); [discriminate|apply IH].
Qed.

Lemma filter_iterator_stop (p : A -> bool) self fuel st st' :
  filter_iterator p self fuel st = Some (StopIteration, st') ->
  st'.1 = GEN_CLOSED.
Proof.
  destruct st as [[|it|] w]; cbn [filter_iterator];
    [apply filter_loop_stop | apply filter_loop_stop | intros [= <-]; reflexivity].
Qed.

Lemma for_each_step_stop (func : A -> W -> W) self fuel it w st :
  for_each_step func self fuel it w = Some (StopIteration, st) ->
  st.1 = GEN_CLOSED.
Proof.
  unfold for_each_step.
  destruct (__safe_iter None self fuel (it, w)) as [[[a|] [it' w']]|];
    [discriminate|intros [= <-]; reflexivity|discriminate].
Qed.

Lemma for_each_iterator_stop (func : A -> W -> W) self fuel st st' :
  for_each_iterator func self fuel st = Some (StopIteration, st') ->
  st'.1 = GEN_CLOSED.
Proof.
  destruct st as [[|it|] w]; cbn [for_each_iterator];
    [apply for_each_step_stop | apply for_each_step_stop
     | intros [= <-]; reflexivity].
Qed.

Lemma map_enumerate_step_stop (func : Z -> A -> B) self fuel count it w st :
  map_enumerate_step func self fuel count it w = Some (StopIteration, st) ->
  st.1 = GEN_CLOSED.
Proof.
  unfold map_enumerate_step.
  destruct (__safe_iter None self fuel (it, w)) as [[[a|] [it' w']]|];
    [discriminate|intros [= <-]; reflexivity|discriminate].
Qed.

Lemma map_enumerate_iterator_stop (func : Z -> A -> B) self fuel st st' :
  map_enumerate_iterator func self fuel st = Some (StopIteration, st') ->
  st'.1 = GEN_CLOSED.
Proof.
  destruct st as [[|[count it]|] w]; cbn [map_enumerate_iterator];
    [apply map_enumerate_step_stop | apply map_enumerate_step_stop
     | intros [= <-]; reflexivity].
Qed.

Lemma zip_next_stop self (other : LazyStream W B) fuel st st' :
  zip_next self other fuel st = Some (StopIteration, st') -> zip_over st'.
Proof.
  destruct st as [[ita itb] w]. cbn [zip_next].
  destruct (__safe_iter None self fuel (ita, w)) as [[[a|] [ita' w1]]|] eqn:Ea;
    [| |discriminate].
  - destruct (__safe_iter None other fuel (itb, w1)) as [[[b|] [itb' w2]]|] eqn:Eb;
      [discriminate| |discriminate].
    intros [= <-]. right. apply (safe_iter_stop _ _ _ _ _ Eb).
  - intros [= <-]. left. apply (safe_iter_stop _ _ _ _ _ Ea).
Qed.

Lemma zip_next_over self (other other' : LazyStream W B) fuel st :
  zip_over st ->
  zip_next self other' fuel st = zip_next self other fuel st /\
  match zip_next self other fuel st with
  | None => True
  | Some (o, st') => o = StopIteration /\ zip_over st'
  end.
Proof.
  destruct st as [[ita itb] w]. intros [Ha | Hb]; cbn in Ha || cbn in Hb; subst.
  - cbn. repeat split. left; reflexivity.
  - cbn [zip_next].
    destruct (__safe_iter None self fuel (ita, w)) as [[[a|] [ita' w1]]|] eqn:Ea;
      [| |split; [reflexivity|exact I]].
    + cbn. repeat split. right; reflexivity.
    + repeat split. left. apply (safe_iter_stop _ _ _ _ _ Ea).
Qed.

End Exhaustion.

(** C10 (as amended). Once a stream built by [filter], [for_each] or
    [map_enumerate] has raised [StopIteration], every later pull raises it
    again and leaves the store as it is, whatever the upstream producer
    would do if called (it is not called: the statement holds with any
    producer [self'] in its place, one that never returns included).  Once
    a stream built by [zip] has raised it, one of its two inner generators
    has finished; from then on every pull that returns raises
    [StopIteration] again and does the same with any producer [other'] in
    the place of [other] (which is not called), and when it is the generator
    over [self] that has finished the pull touches nothing at all. *)
Theorem exhaustion_is_final :
  (forall (W A : Type) (p : A -> bool) (self self' : LazyStream W A) w0
          fuel fuel' st st',
     _generator (filter p self w0).1 fuel st = Some (StopIteration, st') ->
     _generator (filter p self' w0).1 fuel' st' = Some (StopIteration, st')) /\
  (forall (W A : Type) (func : A -> W -> W) (self self' : LazyStream W A) w0
          fuel fuel' st st',
     _generator (for_each func self w0).1 fuel st = Some (StopIteration, st') ->
     _generator (for_each func self' w0).1 fuel' st' = Some (StopIteration, st')) /\
  (forall (W A B : Type) (func : Z -> A -> B) (self self' : LazyStream W A) w0
          fuel fuel' st st',
     _generator (map_enumerate func self w0).1 fuel st = Some (StopIteration, st') ->
     _generator (map_enumerate func self' w0).1 fuel' st'
       = Some (StopIteration, st')) /\
  (forall (W A B : Type) (self self' : LazyStream W A)
          (other other' : LazyStream W B) w0 fuel fuel' st st',
     _generator (LazyStream.zip self other w0).1 fuel st
       = Some (StopIteration, st') ->
     zip_over st' /\
     (forall st, zip_over st ->
        _generator (LazyStream.zip self other' w0).1 fuel' st
          = _generator (LazyStream.zip self other w0).1 fuel' st /\
        match _generator (LazyStream.zip self other w0).1 fuel' st with
        | None => True
        | Some (o, st'') => o = StopIteration /\ zip_over st''
        end) /\
     (st'.1.1 = GEN_CLOSED ->
      _generator (LazyStream.zip self' other' w0).1 fuel' st'
        = Some (StopIteration, st'))).
Proof.
  split; [|split; [|split]].
  - intros W A p self self' w0 fuel fuel' st [G w] H.
    apply filter_iterator_stop in H. cbn in H. subst G. reflexivity.
  - intros W A func self self' w0 fuel fuel' st [G w] H.
    apply for_each_iterator_stop in H. cbn in H. subst G. reflexivity.
  - intros W A B func self self' w0 fuel fuel' st [G w] H.
    apply map_enumerate_iterator_stop in H. cbn in H. subst G. reflexivity.
  - intros W A B self self' other other' w0 fuel fuel' st st' H.
    split; [exact (zip_next_stop _ _ _ _ _ H)|]. split.
    + intros st0 H0. apply (zip_next_over self other other' fuel' st0 H0).
    + destruct st' as [[ita itb] w]. cbn. intros ->. reflexivity.
Qed.

(** A filtered empty list raises on its first pull, and raises again on the
    next, even with a producer that never returns in place of the source;
    a zip whose [self] ran out first does the same. *)
Lemma exhaustion_is_final_witness :
  let dry : generator (generator Z) * (list unit * list nat) :=
    (GEN_CLOSED, ([tt], [])) in
  let over : generator Z * generator Z * (list side * (list nat * list bool)) :=
    (GEN_CLOSED, GEN_CREATED, ([Self], ([], [true]))) in
  _generator (filter Nat.even (from_lambda hangs) ([], [])).1 0 dry
    = Some (StopIteration, dry) /\
  _generator (LazyStream.zip (from_lambda (@hangs nat _))
                (from_lambda (@hangs bool _)) ([], ([], [true]))).1 0 over
    = Some (StopIteration, over).
Proof.
  split.
  - apply (proj1 exhaustion_is_final _ _ Nat.even (@source nat)
             (from_lambda hangs) ([], []) 1 0 (GEN_CREATED, ([], []))).
    reflexivity.
  - apply (proj2 (proj2 (proj2 exhaustion_is_final)) _ _ _
             (@self_source nat bool) (from_lambda hangs) other_source
             (from_lambda hangs) ([], ([], [true])) 1 0
             (GEN_CREATED, GEN_CREATED, ([], ([], [true])))); reflexivity.
Defined.

(** The claim fails for [zip] when it is [other] that ran out first.  With
    [self] over [1, 2, 3] and [other] empty, the first pull raises after
    calling both producers; the pull after it raises again, and has called
    the producer of [self] once more, taking [2] out of it. *)
Lemma zip_pulls_self_after_exhaustion :
  let zipped :=
    (LazyStream.zip self_source other_source ([], ([1; 2; 3], @nil bool))).1 in
  _generator zipped 0 (GEN_CREATED, GEN_CREATED, ([], ([1; 2; 3], [])))
    = Some (StopIteration,
            (GEN_SUSPENDED 1%Z, GEN_CLOSED, ([Self; Other], ([2; 3], [])))) /\
  _generator zipped 0
      (GEN_SUSPENDED 1%Z, GEN_CLOSED, ([Self; Other], ([2; 3], [])))
    = Some (StopIteration,
            (GEN_SUSPENDED 2%Z, GEN_CLOSED, ([Self; Other; Self], ([3], [])))) /\
  _generator
      (LazyStream.zip (from_lambda (@hangs nat _)) other_source
         ([], ([1; 2; 3], @nil bool))).1 0
      (GEN_SUSPENDED 1%Z, GEN_CLOSED, ([Self; Other], ([2; 3], [])))
    = None.
Proof. repeat split. Qed.

(** ** Laziness of the operators *)

(** C7. Building [map], [map_enumerate], [filter], [for_each] or [zip] on
    any stream returns a new stream and leaves the store of the stream it
    was built on exactly as it was (the only addition is the new generator
    object, not yet started), so the producer has not been called; this
    holds for every producer, one that would never return included.  On a
    list source with a spy, the call log is still empty after building and
    holds exactly one call per source after the first pull of the new
    stream. *)
Theorem operators_do_not_pull :
  (forall (W A B C : Type) (self : LazyStream W A) (other : LazyStream W C)
          (f : A -> B) (g : Z -> A -> B) (p : A -> bool) (h : A -> W -> W)
          (w : W),
     (map f self w).2 = w /\
     (map_enumerate g self w).2 = (GEN_CREATED, w) /\
     (filter p self w).2 = (GEN_CREATED, w) /\
     (for_each h self w).2 = (GEN_CREATED, w) /\
     (LazyStream.zip self other w).2 = (GEN_CREATED, GEN_CREATED, w)) /\
  (forall (A B : Type) (f : A -> B) (g : Z -> A -> B)
          (h : A -> list unit * list A -> list unit * list A)
          (x : A) (xs : list A) (fuel : nat),
     let w := ([], x :: xs) in
     _generator (map f source w).1 fuel (map f source w).2
       = Some (Value (f x), ([tt], xs)) /\
     _generator (map_enumerate g source w).1 fuel (map_enumerate g source w).2
       = Some (Value (g 0%Z x),
               (GEN_SUSPENDED (1%Z, GEN_SUSPENDED 1%Z), ([tt], xs))) /\
     _generator (filter (fun _ => true) source w).1 (S fuel)
         (filter (fun _ => true) source w).2
       = Some (Value x, (GEN_SUSPENDED (GEN_SUSPENDED 1%Z), ([tt], xs))) /\
     _generator (for_each h source w).1 fuel (for_each h source w).2
       = Some (Value x, (GEN_SUSPENDED (GEN_SUSPENDED 1%Z), h x ([tt], xs)))) /\
  (forall (A B : Type) (x : A) (xs : list A) (y : B) (ys : list B) (fuel : nat),
     let w := ([], (x :: xs, y :: ys)) in
     _generator (LazyStream.zip self_source other_source w).1 fuel
         (LazyStream.zip self_source other_source w).2
       = Some (Value (x, y),
               (GEN_SUSPENDED 1%Z, GEN_SUSPENDED 1%Z,
                ([Self; Other], (xs, ys))))).
Proof.
  split; [|split].
  - intros. repeat split.
  - intros. repeat split.
  - intros. reflexivity.
Qed.

(** ** reduce *)

Section ReduceFacts.
Context {W A B : Type}.
Implicit Types (func : fold_function B A) (h : gmap nat B) (ys : list A).

(** [reduce]'s loop consumes what [evaluate]'s loop would collect. *)
Lemma reduce_loop_evaluate_loop {St} (it : Iterator St A) fuel :
  forall n output st output' st',
  evaluate_loop it fuel n output st = Some (output', st') ->
  exists ys, output' = output ++ ys /\
    forall func accum h,
      reduce_loop it func fuel n accum st h =
        match call_all func ys accum h with
        | None => None
        | Some (r, h') => Some (r, st', h')
        end.
Proof.
  induction n as [|n IH]; intros output st output' st'; cbn [evaluate_loop];
    [discriminate|].
  destruct (it fuel st) as [[[v|] st1]|] eqn:E; [| |discriminate].
  - intros H. destruct (IH _ _ _ _ H) as (ys & -> & Hred).
    exists (v :: ys). split; [rewrite <- app_assoc; reflexivity|].
    intros func accum h. cbn [reduce_loop call_all]. rewrite E.
    destruct (call func accum v h) as [[accum' h']|]; [apply Hred|reflexivity].
  - intros [= <- <-]. exists []. split; [rewrite app_nil_r; reflexivity|].
    intros func accum h. cbn [reduce_loop call_all]. rewrite E. reflexivity.
Qed.

Lemma fresh_not_live h (l : nat) : is_Some (h !! l) -> fresh (dom h) <> l.
Proof.
  intros Hl E. apply (is_fresh (dom h)). rewrite E. apply elem_of_dom, Hl.
Qed.

(** Folding from an accumulator other than [init] ends in an object other
    than [init] that holds the left fold, and never writes to [init]. *)
Lemma call_all_fold func ys : forall accum h b init,
  h !! accum = Some b -> accum <> init -> is_Some (h !! init) ->
  exists r h',
    call_all func ys accum h = Some (r, h') /\
    h' !! r = Some (fold_left (on_contents func) ys b) /\
    r <> init /\ h' !! init = h !! init.
Proof.
  induction ys as [|y ys IH]; intros accum h b init Hb Hne Hinit;
    cbn [call_all fold_left].
  - exists accum, h. repeat split; assumption.
  - unfold call. rewrite Hb. destruct func as [f|f]; cbn [on_contents].
    + pose proof (fresh_not_live h init Hinit) as Hfresh.
      destruct (IH (fresh (dom h)) (<[fresh (dom h) := f b y]> h) (f b y) init)
        as (r & h' & E & Hr & Hri & Hi).
      * apply lookup_insert_eq.
      * exact Hfresh.
      * rewrite lookup_insert_ne by exact Hfresh. exact Hinit.
      * exists r, h'. rewrite lookup_insert_ne in Hi by exact Hfresh.
        repeat split; assumption.
    + destruct (IH accum (<[accum := f b y]> h) (f b y) init)
        as (r & h' & E & Hr & Hri & Hi).
      * apply lookup_insert_eq.
      * exact Hne.
      * rewrite lookup_insert_ne by exact Hne. exact Hinit.
      * exists r, h'. rewrite lookup_insert_ne in Hi by exact Hne.
        repeat split; assumption.
Qed.

End ReduceFacts.

Lemma reduce_of_evaluate {W A B : Type} (func : fold_function B A)
    (self : LazyStream W A) (limit : option Z) (fuel : nat) (w w' : W)
    (ys : list A) (h : gmap nat B) (initial : nat) (b : B) :
  h !! initial = Some b ->
  evaluate limit self fuel w = Some (ys, w') ->
  exists r h',
    reduce func initial limit self fuel w h = Some (r, w', h') /\
    h' !! r = Some (fold_left (on_contents func) ys b) /\
    h' !! initial = Some b /\
    forall b', <[initial := b']> h' !! r
               = Some (fold_left (on_contents func) ys b).
Proof.
  intros Hb Hev. unfold evaluate in Hev.
  destruct (evaluate_loop (__safe_iter limit self) fuel fuel []
              (GEN_CREATED, w)) as [[output [g w1]]|] eqn:E; [|discriminate].
  injection Hev as -> ->.
  destruct (reduce_loop_evaluate_loop (B := B) _ _ _ _ _ _ _ E)
    as (ys' & Hys & Hred).
  cbn [app] in Hys. subst ys'.
  assert (Hinit : is_Some (h !! initial)) by (rewrite Hb; eauto).
  pose proof (fresh_not_live h initial Hinit) as Hfresh.
  destruct (call_all_fold func ys (fresh (dom h)) (<[fresh (dom h) := b]> h)
              b initial) as (r & h' & Hcall & Hr & Hri & Hi).
  { apply lookup_insert_eq. }
  { exact Hfresh. }
  { rewrite lookup_insert_ne by exact Hfresh. exact Hinit. }
  exists r, h'. unfold reduce, deepcopy. rewrite Hb, Hred, Hcall.
  rewrite lookup_insert_ne in Hi by exact Hfresh.
  repeat split; [exact Hr | congruence |].
  intros b'. rewrite lookup_insert_ne by congruence. exact Hr.
Qed.

(** C4. For every stream, fold function, initial accumulator and limit:
    when [evaluate(limit)] would return [ys], [reduce(f, initial, limit)]
    returns an object holding the left-to-right fold of [f] over [ys] from
    the content of [initial], and leaves the stream's store as [evaluate]
    would.  The fold runs on a copy: [initial] keeps its content even with a
    fold function that mutates its accumulator, and writing to [initial]
    afterwards does not change what the returned object holds.  Over a list
    source the call returns, having folded the first [limit] elements, or
    all of them without a limit.  [reduce(add, 0)] over [1, 2, 3] returns
    6. *)
Theorem reduce_folds_a_copy :
  (forall (W A B : Type) (func : fold_function B A) (self : LazyStream W A)
          (limit : option Z) (fuel : nat) (w w' : W) (ys : list A)
          (h : gmap nat B) (initial : nat) (b : B),
     h !! initial = Some b ->
     evaluate limit self fuel w = Some (ys, w') ->
     exists r h',
       reduce func initial limit self fuel w h = Some (r, w', h') /\
       h' !! r = Some (fold_left (on_contents func) ys b) /\
       h' !! initial = Some b /\
       forall b', <[initial := b']> h' !! r
                  = Some (fold_left (on_contents func) ys b)) /\
  (forall (A B : Type) (func : fold_function B A) (xs : list A)
          (limit : option Z) (extra : nat) (h : gmap nat B) (initial : nat)
          (b : B),
     h !! initial = Some b ->
     let k := match limit with
              | None => length xs
              | Some l => Z.to_nat l
              end in
     exists r calls h',
       reduce func initial limit source (S (length xs) + extra) ([], xs) h
         = Some (r, (calls, drop k xs), h') /\
       h' !! r = Some (fold_left (on_contents func) (take k xs) b) /\
       h' !! initial = Some b) /\
  (exists r w' h',
     reduce (Pure Z.add) 0 None source 4 ([], [1; 2; 3]%Z) {[0 := 0%Z]}
       = Some (r, w', h') /\
     h' !! r = Some 6%Z).
Proof.
  split; [|split].
  - intros W A B func self limit fuel w w' ys h initial b.
    apply reduce_of_evaluate.
  - intros A B func xs limit extra h initial b Hb k.
    pose proof (evaluate_source limit xs extra []) as Hev. cbv zeta in Hev.
    assert (Hk : take (passes_left limit 0 xs) xs = take k xs /\
                 drop (passes_left limit 0 xs) xs = drop k xs).
    { subst k. destruct limit as [l|]; cbn [passes_left].
      - rewrite Z.sub_0_r. split; reflexivity.
      - rewrite !take_ge, !drop_ge by lia. split; reflexivity. }
    destruct Hk as [Htake Hdrop]. rewrite Htake, Hdrop in Hev.
    destruct (reduce_of_evaluate func source limit _ _ _ _ h initial b Hb Hev)
      as (r & h' & E & Hr & Hi & _).
    eexists r, _, h'. repeat split; eassumption.
  - eexists _, _, _. split; vm_compute; reflexivity.
Qed.

(** A fold that appends in place, over [1, 2, 3] from the list [[0]]: the
    result holds [[0; 1; 2; 3]], the caller's list still holds [[0]]. *)
Lemma reduce_folds_a_copy_witness :
  exists r h',
    reduce (InPlace (fun acc x => acc ++ [x])) 7 None source 4 ([], [1; 2; 3])
        {[7 := [0]]}
      = Some (r, ([tt; tt; tt; tt], []), h') /\
    h' !! r = Some [0; 1; 2; 3] /\
    h' !! 7 = Some [0] /\
    forall b', <[7 := b']> h' !! r = Some [0; 1; 2; 3].
Proof.
  apply (proj1 reduce_folds_a_copy _ _ _ (InPlace (fun acc x => acc ++ [x]))
           source None 4 ([], [1; 2; 3]) ([tt; tt; tt; tt], []) [1; 2; 3]
           {[7 := [0]]} 7 [0]).
  - reflexivity.
  - reflexivity.
Defined.

(** ** par_evaluate *)

Section ParallelFacts.
Context {A : Type}.
Implicit Types (xs : list A) (futures : list (option (outcome A))).

Lemma submit_loop_pending (limit : Z) : forall n futures,
  Z.to_nat limit - length futures <= n ->
  submit_loop n limit futures =
  futures ++ replicate (Z.to_nat limit - length futures) None.
Proof.
  induction n as [|n IH]; intros futures Hn; cbn [submit_loop].
  - replace (Z.to_nat limit - length futures) with 0 by lia.
    rewrite app_nil_r. reflexivity.
  - destruct (Z.ltb_spec (Z.of_nat (length futures)) limit) as [Hlt | Hge].
    + rewrite IH by (rewrite length_app; simpl; lia).
      rewrite length_app. cbn [length].
      replace (Z.to_nat limit - length futures)
        with (S (Z.to_nat limit - (length futures + 1))) by lia.
      rewrite <- app_assoc. reflexivity.
    + replace (Z.to_nat limit - length futures) with 0 by lia.
      rewrite app_nil_r. reflexivity.
Qed.

End ParallelFacts.

Section PoolFacts.
Context {W A : Type}.
Implicit Types (task : Callable W A) (futures : list (option (outcome A))).

Lemma pool_run_until_done task fuel j order futures w o :
  futures !! j = Some (Some o) ->
  pool_run_until task fuel j order futures w = Some (order, futures, w).
Proof. intros H. destruct order; cbn [pool_run_until]; rewrite H; reflexivity. Qed.

Lemma pool_run_until_step task fuel j i order futures w :
  futures !! j = Some None -> futures !! i = Some None ->
  pool_run_until task fuel j (i :: order) futures w =
    match task fuel w with
    | None => None
    | Some (o, w') =>
        pool_run_until task fuel j order (<[i := Some o]> futures) w'
    end.
Proof. intros Hj Hi. cbn [pool_run_until]. rewrite Hj, Hi. reflexivity. Qed.

Lemma pool_run_ahead_none task fuel order futures w :
  pool_run_ahead task fuel 0 order futures w = w.
Proof. destruct order; reflexivity. Qed.

Lemma pool_run_ahead_nothing_queued task fuel w : forall order n,
  pool_run_ahead task fuel n order [] w = w.
Proof.
  induction order as [|i order IH]; intros [|n]; try reflexivity.
  cbn [pool_run_ahead]. rewrite lookup_nil. apply IH.
Qed.

End PoolFacts.

(** *** A list source under any run order *)

Section RunOrders.
Context {A : Type} (order : list nat) (xs : list A) (log : list unit)
        (fuel : nat).
Hypothesis order_NoDup : NoDup order.
Implicit Types (futures : list (option (outcome A))).

Lemma source_at m :
  _generator source fuel (after_calls log xs m)
    = Some (outcome_at xs m, after_calls log xs (S m)).
Proof.
  unfold after_calls, outcome_at. rewrite source_pull.
  rewrite replicate_S_end, app_assoc.
  destruct (xs !! m) as [x|] eqn:E.
  - rewrite (drop_S _ _ _ E). reflexivity.
  - apply lookup_ge_None in E. rewrite !drop_ge by lia. reflexivity.
Qed.

Lemma ran_to_step m i futures :
  ran_to order xs m futures -> order !! m = Some i ->
  futures !! i = Some None /\
  ran_to order xs (S m) (<[i := Some (outcome_at xs m)]> futures).
Proof.
  intros [Hlen Hf] Hm.
  assert (Hi : futures !! i = Some None).
  { rewrite (Hf m i Hm). rewrite decide_False by lia. reflexivity. }
  split; [exact Hi|]. split; [rewrite length_insert; exact Hlen|].
  intros q j Hq. destruct (decide (j = i)) as [-> | Hne].
  - rewrite (NoDup_lookup _ _ _ _ order_NoDup Hq Hm).
    rewrite list_lookup_insert_eq by (apply (lookup_lt_Some _ _ _ Hi)).
    rewrite decide_True by lia. reflexivity.
  - rewrite list_lookup_insert_ne by congruence. rewrite (Hf q j Hq).
    assert (q <> m) by (intros ->; congruence).
    destruct (decide (q < m)), (decide (q < S m)); try reflexivity; lia.
Qed.

Lemma pool_run_until_ran : forall d m futures q j,
  ran_to order xs m futures -> order !! q = Some j -> S q - m <= d ->
  exists futures',
    pool_run_until (_generator source) fuel j (drop m order) futures
        (after_calls log xs m)
      = Some (drop (m `max` S q) order, futures',
              after_calls log xs (m `max` S q)) /\
    ran_to order xs (m `max` S q) futures'.
Proof.
  induction d as [|d IH]; intros m futures q j Hran Hq Hd;
    destruct (decide (q < m)) as [Hlt | Hge];
    try (exists futures; (rewrite Nat.max_l by lia); split; [|exact Hran];
         apply (pool_run_until_done _ _ _ _ _ _ (outcome_at xs q));
         rewrite (proj2 Hran q j Hq); (rewrite decide_True by lia);
         reflexivity).
  assert (Hj : futures !! j = Some None)
    by (rewrite (proj2 Hran q j Hq); (rewrite decide_False by lia);
        reflexivity).
  destruct (lookup_lt_is_Some_2 order m) as [i Hm];
    [pose proof (lookup_lt_Some _ _ _ Hq); lia|].
  destruct (ran_to_step m i futures Hran Hm) as [Hi Hran'].
  rewrite (drop_S _ _ _ Hm), (pool_run_until_step _ _ _ _ _ _ _ Hj Hi).
  rewrite source_at.
  destruct (IH (S m) _ q j Hran' Hq) as (futures' & E & Hran''); [lia|].
  exists futures'. replace (m `max` S q) with (S m `max` S q) by lia.
  split; assumption.
Qed.

Lemma result_ran m futures q j :
  ran_to order xs m futures -> order !! q = Some j ->
  exists futures',
    result (_generator source) fuel j (drop m order) futures
        (after_calls log xs m)
      = Some (outcome_at xs q,
              (drop (m `max` S q) order, futures',
               after_calls log xs (m `max` S q))) /\
    ran_to order xs (m `max` S q) futures'.
Proof.
  intros Hran Hq.
  destruct (pool_run_until_ran (S q) m futures q j Hran Hq)
    as (futures' & E & Hran'); [lia|].
  exists futures'. unfold result. rewrite E.
  rewrite (proj2 Hran' q j Hq). rewrite decide_True by lia.
  split; [reflexivity|exact Hran'].
Qed.

(** Awaiting the futures [j0, j0 + 1, ...] in turn: each holds what the
    source gave at the place where the pool ran its call; the loop stops at
    the first that holds [StopIteration]; the pool has then run its queue up
    to the last call an awaited future needed. *)
Lemma collect_ran : forall n j0 m futures output,
  ran_to order xs m futures -> m <= length order ->
  (forall j, j0 <= j < j0 + n -> j ∈ order) ->
  exists vs m' futures',
    collect (_generator source) fuel (seq j0 n) (drop m order) futures output
        (after_calls log xs m)
      = Some (output ++ vs,
              (drop m' order, futures', after_calls log xs m')) /\
    ran_to order xs m' futures' /\
    m <= m' <= length order /\
    length vs <= n /\
    (forall i v, vs !! i = Some v ->
       exists q, order !! q = Some (j0 + i) /\ xs !! q = Some v) /\
    (length vs = n \/
     exists q, order !! q = Some (j0 + length vs) /\ length xs <= q) /\
    (forall j q, j0 <= j -> j < j0 + (S (length vs) `min` n) ->
       order !! q = Some j -> q < m') /\
    (m' = m \/
     exists j, j0 <= j /\ j < j0 + (S (length vs) `min` n) /\
               order !! (m' - 1) = Some j /\ 0 < m').
Proof.
  induction n as [|n IH]; intros j0 m futures output Hran Hm Hall.
  - exists [], m, futures. cbn [seq collect]. rewrite app_nil_r.
    split; [reflexivity|]. split; [exact Hran|]. split; [lia|].
    split; [reflexivity|]. split; [intros i v Hi; discriminate|].
    split; [left; reflexivity|]. split; [intros j q; cbn; lia|].
    left; reflexivity.
  - destruct (proj1 (list_elem_of_lookup order j0)) as [q0 Hq0];
      [apply Hall; lia|].
    pose proof (lookup_lt_Some _ _ _ Hq0) as Hq0lt.
    destruct (result_ran m futures q0 j0 Hran Hq0) as (futures1 & E & Hran1).
    cbn [seq collect]. rewrite E. unfold outcome_at.
    assert (Hlast : m `max` S q0 = m \/
                    (order !! (m `max` S q0 - 1) = Some j0 /\ 0 < m `max` S q0)).
    { destruct (decide (q0 < m)); [left; lia|right].
      replace (m `max` S q0 - 1) with q0 by lia. split; [exact Hq0|lia]. }
    destruct (xs !! q0) as [x|] eqn:Hx.
    + destruct (IH (S j0) (m `max` S q0) futures1 (output ++ [x]) Hran1)
        as (vs & m' & futures' & E' & Hran' & Hm' & Hlen & P1 & P2 & P3 & P4);
        [lia|intros j Hj; apply Hall; lia|].
      exists (x :: vs), m', futures'. rewrite E', <- app_assoc.
      split; [reflexivity|]. split; [exact Hran'|]. split; [lia|].
      split; [cbn [length]; lia|]. split; [|split; [|split]].
      * intros [|i] v Hi.
        -- injection Hi as <-. exists q0. rewrite Nat.add_0_r. auto.
        -- destruct (P1 i v Hi) as (q & Hq & Hv). exists q.
           replace (j0 + S i) with (S j0 + i) by lia. auto.
      * cbn [length]. destruct P2 as [-> | (q & Hq & Hxs)];
          [left; reflexivity|right].
        exists q. replace (j0 + S (length vs)) with (S j0 + length vs) by lia.
        auto.
      * intros j q Hj1 Hj2 Hq. cbn [length] in Hj2.
        destruct (decide (j = j0)) as [-> | Hne].
        -- rewrite (NoDup_lookup _ _ _ _ order_NoDup Hq Hq0). lia.
        -- apply (P3 j q); [lia|lia|exact Hq].
      * cbn [length]. destruct P4 as [-> | (j & Hj1 & Hj2 & Hj3 & Hj4)].
        -- destruct Hlast as [-> | [Hl1 Hl2]]; [left; reflexivity|right].
           exists j0. repeat split; try assumption; lia.
        -- right. exists j. repeat split; try assumption; lia.
    + exists [], (m `max` S q0), futures1. rewrite app_nil_r.
      split; [reflexivity|]. split; [exact Hran1|]. split; [lia|].
      split; [cbn [length]; lia|]. split; [intros i v Hi; discriminate|].
      split; [|split].
      * right. exists q0. cbn [length]. rewrite Nat.add_0_r.
        split; [exact Hq0|]. apply lookup_ge_None. exact Hx.
      * intros j q Hj1 Hj2 Hq. cbn [length] in Hj2.
        assert (j = j0) as -> by lia.
        rewrite (NoDup_lookup _ _ _ _ order_NoDup Hq Hq0). lia.
      * cbn [length]. destruct Hlast as [-> | [Hl1 Hl2]];
          [left; reflexivity|right].
        exists j0. repeat split; try assumption; lia.
Qed.

Lemma pool_run_ahead_ran : forall n m futures,
  ran_to order xs m futures -> m <= length order ->
  pool_run_ahead (_generator source) fuel n (drop m order) futures
      (after_calls log xs m)
    = after_calls log xs (length order `min` (m + n)).
Proof.
  induction n as [|n IH]; intros m futures Hran Hm.
  - rewrite pool_run_ahead_none. rewrite Nat.add_0_r, Nat.min_r by lia.
    reflexivity.
  - destruct (decide (m < length order)) as [Hlt | Hge].
    + destruct (lookup_lt_is_Some_2 order m Hlt) as [i Hi].
      destruct (ran_to_step m i futures Hran Hi) as [Hpend Hran'].
      rewrite (drop_S _ _ _ Hi). cbn [pool_run_ahead].
      rewrite Hpend, source_at, (IH (S m) _ Hran') by lia.
      replace (S m + n) with (m + S n) by lia. reflexivity.
    + rewrite drop_ge by lia. cbn [pool_run_ahead].
      rewrite Nat.min_l by lia. replace m with (length order) by lia.
      reflexivity.
Qed.

End RunOrders.

(** [par_evaluate] over a list source, for a pool that runs each of the [k]
    calls once. *)
Lemma par_evaluate_ran {A : Type} (limit : Z) (executor : Executor)
    (xs : list A) (fuel : nat) :
  let k := Z.to_nat limit in
  let order := run_order executor k in
  order ≡ₚ seq 0 k ->
  exists output needed,
    par_evaluate limit executor source fuel ([], xs)
      = Some (output,
              after_calls [] xs (k `min` (needed + runs_ahead executor))) /\
    needed <= k /\
    length output <= k /\
    (forall j v, output !! j = Some v ->
       exists q, order !! q = Some j /\ xs !! q = Some v) /\
    (length output = k \/
     exists q, order !! q = Some (length output) /\ length xs <= q) /\
    (forall j q, j < S (length output) `min` k -> order !! q = Some j ->
       q < needed) /\
    (needed = 0 \/
     exists j, j < S (length output) `min` k /\
               order !! (needed - 1) = Some j /\ 0 < needed).
Proof.
  intros k order Hperm. unfold par_evaluate.
  rewrite submit_loop_pending by (cbn [length]; lia).
  cbn [app length]. rewrite Nat.sub_0_r, length_replicate.
  fold k. fold order.
  assert (Hnd : NoDup order) by (rewrite Hperm; apply NoDup_seq).
  assert (Hlen : length order = k) by (rewrite Hperm; apply length_seq).
  assert (Hin : forall j, j ∈ order <-> j < k).
  { intros j. rewrite Hperm, elem_of_seq. lia. }
  assert (Hran : ran_to order xs 0 (replicate k None)).
  { split; [rewrite length_replicate; lia|]. intros q j Hq.
    rewrite decide_False by lia. apply lookup_replicate_2, Hin.
    apply list_elem_of_lookup. exists q. exact Hq. }
  destruct (collect_ran order xs [] fuel Hnd k 0 0 (replicate k None) [] Hran)
    as (vs & m' & futures' & E & Hran' & Hm' & Hvs & P1 & P2 & P3 & P4);
    [lia|intros j Hj; apply Hin; lia|].
  change (after_calls [] xs 0) with (@nil unit, xs) in E.
  rewrite drop_0 in E. rewrite E.
  rewrite (pool_run_ahead_ran order xs [] fuel Hnd _ m' futures' Hran')
    by lia.
  exists vs, m'. rewrite Hlen. cbn [app]. cbn [Nat.add] in P1, P2, P3, P4.
  split; [reflexivity|]. split; [lia|]. split; [exact Hvs|].
  split; [exact P1|]. split; [exact P2|]. split.
  - intros j q Hj Hq. apply (P3 j q); [lia|exact Hj|exact Hq].
  - destruct P4 as [-> | (j & _ & Hj & Hl & Hpos)]; [left; reflexivity|].
    right. exists j. auto.
Qed.

(** With the calls run in submission order the futures hold the source in
    order, so the values up to the first [StopIteration] are its first
    elements. *)
Lemma prefix_in_order {A : Type} (k : nat) (xs output : list A) :
  length output <= k ->
  (forall j v, output !! j = Some v ->
     exists q, seq 0 k !! q = Some j /\ xs !! q = Some v) ->
  (length output = k \/
   exists q, seq 0 k !! q = Some (length output) /\ length xs <= q) ->
  output = take k xs.
Proof.
  intros Hlen P1 P2.
  assert (Hsame : forall q j, seq 0 k !! q = Some j -> q = j).
  { intros q j Hq. apply lookup_seq in Hq. lia. }
  apply list_eq. intros i. destruct (output !! i) as [v|] eqn:Hi.
  - destruct (P1 i v Hi) as (q & Hq & Hv).
    rewrite (Hsame q i Hq) in Hv.
    pose proof (lookup_lt_Some _ _ _ Hi).
    rewrite lookup_take_lt by lia. symmetry. exact Hv.
  - apply lookup_ge_None in Hi. symmetry. apply lookup_ge_None.
    rewrite length_take. destruct P2 as [Hk | (q & Hq & Hxs)]; [lia|].
    rewrite (Hsame q _ Hq) in Hxs. lia.
Qed.

(** C2 (as amended). [par_evaluate(k, pool)] queues exactly [k] pending
    calls of the producer before it awaits any, then awaits the handles in
    submission order and stops at the first that holds [StopIteration],
    returning the values before it.  Over a list source and for every order
    in which the pool runs the calls: a result is returned; the value at
    place [j] of the result is the one received by the [j]-th submitted
    call, which is the element of the source at the place at which the pool
    ran that call; and the result has [k] values or ends right before the
    first submitted call that the pool ran when the source was already
    empty, whatever later handles hold.  So when the pool runs the calls in
    submission order the result is the first [k] elements of the source,
    [[0; 1; 2]] for a source of 0, 1, 2 and [k = 5]. *)
Theorem par_evaluate_submission_order :
  (forall (A : Type) (limit : Z),
     submit_loop (Z.to_nat limit) limit [] =
     replicate (Z.to_nat limit) (@None (outcome A))) /\
  (forall (A : Type) (limit : Z) (executor : Executor) (xs : list A) fuel,
     let k := Z.to_nat limit in
     let order := run_order executor k in
     order ≡ₚ seq 0 k ->
     exists output w',
       par_evaluate limit executor source fuel ([], xs) = Some (output, w') /\
       length output <= k /\
       (forall j v, output !! j = Some v ->
          exists q, order !! q = Some j /\ xs !! q = Some v) /\
       (length output = k \/
        exists q, order !! q = Some (length output) /\ length xs <= q)) /\
  (forall (A : Type) (limit : Z) (executor : Executor) (xs : list A) fuel,
     run_order executor (Z.to_nat limit) = seq 0 (Z.to_nat limit) ->
     exists w',
       par_evaluate limit executor source fuel ([], xs)
         = Some (take (Z.to_nat limit) xs, w')) /\
  par_evaluate 5 in_order source 0 ([], [0; 1; 2])
    = Some ([0; 1; 2], ([tt; tt; tt; tt], [])).
Proof.
  split; [|split; [|split]].
  - intros A limit.
    rewrite submit_loop_pending by (cbn [length]; lia).
    cbn [app length]. rewrite Nat.sub_0_r. reflexivity.
  - intros A limit executor xs fuel k order Hperm.
    destruct (par_evaluate_ran limit executor xs fuel Hperm)
      as (output & needed & E & _ & Hlen & P1 & P2 & _).
    exists output. eexists. split; [exact E|]. auto.
  - intros A limit executor xs fuel Horder.
    destruct (par_evaluate_ran limit executor xs fuel)
      as (output & needed & E & _ & Hlen & P1 & P2 & _).
    { cbv zeta. rewrite Horder. reflexivity. }
    cbv zeta in P1, P2. rewrite Horder in P1, P2.
    rewrite (prefix_in_order _ xs output Hlen P1 P2) in E.
    eexists. exact E.
  - reflexivity.
Qed.

(** A pool that runs the second call first, and one that runs the calls
    last to first. *)
Lemma par_evaluate_submission_order_witness :
  (exists output w',
     par_evaluate 5 (in_the_order [1; 0; 2; 3; 4]) source 0 ([], [0; 1; 2])
       = Some (output, w') /\
     length output <= 5 /\
     (forall j v, output !! j = Some v ->
        exists q, [1; 0; 2; 3; 4] !! q = Some j /\ [0; 1; 2] !! q = Some v) /\
     (length output = 5 \/
      exists q, [1; 0; 2; 3; 4] !! q = Some (length output) /\ 3 <= q)) /\
  (exists w',
     par_evaluate 5 (ahead_by 2 in_order) source 0 ([], [0; 1; 2])
       = Some ([0; 1; 2], w')).
Proof.
  split.
  - apply (proj1 (proj2 par_evaluate_submission_order) nat 5%Z
             (in_the_order [1; 0; 2; 3; 4]) [0; 1; 2] 0).
    cbn. apply perm_swap.
  - apply (proj1 (proj2 (proj2 par_evaluate_submission_order)) nat 5%Z
             (ahead_by 2 in_order) [0; 1; 2] 0).
    reflexivity.
Defined.

(** The result is not [[0; 1; 2]] whatever call completes first.  Over a
    producer of 0, 1, 2 with [limit = 5]: a pool that runs the second call
    before the first hands 0 to the second future and 1 to the first, and
    the result is [[1; 0; 2]]; a pool that runs the last call first leaves
    [StopIteration] in the first future, and the result is empty although
    three futures hold values. *)
Lemma par_evaluate_depends_on_run_order :
  par_evaluate 5 (in_the_order [1; 0; 2; 3; 4]) source 0 ([], [0; 1; 2])
    = Some ([1; 0; 2], ([tt; tt; tt; tt], [])) /\
  par_evaluate 5 (in_the_order [4; 3; 2; 1; 0]) source 0 ([], [0; 1; 2])
    = Some ([], ([tt; tt; tt; tt; tt], [])) /\
  [1; 0; 2] <> [0; 1; 2] /\ @nil nat <> [0; 1; 2].
Proof. repeat split; discriminate. Qed.

(** * Further properties *)

(** ** Limits at or below zero *)

(** X1. A limit at or below zero makes every consumer return at once
    without calling the producer, whatever the producer and the pool are:
    [evaluate] returns the empty list, [par_evaluate] queues nothing and
    returns the empty list, and [reduce] returns an object that holds the
    content of [initial] and that later writes to [initial] do not
    reach. *)
Theorem nonpositive_limit_pulls_nothing {W A B : Type} (self : LazyStream W A)
    (L : Z) (fuel : nat) (w : W) (executor : Executor)
    (func : fold_function B A) (h : gmap nat B) (initial : nat) (b : B) :
  (L <= 0)%Z ->
  h !! initial = Some b ->
  evaluate (Some L) self (S fuel) w = Some ([], w) /\
  par_evaluate L executor self fuel w = Some ([], w) /\
  exists r h',
    reduce func initial (Some L) self (S fuel) w h = Some (r, w, h') /\
    h' !! r = Some b /\ h' !! initial = Some b /\
    forall b', <[initial := b']> h' !! r = Some b.
Proof.
  intros HL Hb.
  assert (Hev : evaluate (Some L) self (S fuel) w = Some ([], w)).
  { unfold evaluate. cbn [evaluate_loop __safe_iter]. unfold safe_iter_body.
    cbn [within]. destruct (Z.ltb_spec 0 L) as [Hlt|_]; [lia|]. reflexivity. }
  split; [exact Hev|]. split.
  - unfold par_evaluate. replace (Z.to_nat L) with 0 by lia.
    cbn [submit_loop length seq collect].
    rewrite pool_run_ahead_nothing_queued. reflexivity.
  - destruct (reduce_of_evaluate func self (Some L) (S fuel) w w [] h initial b
                Hb Hev) as (r & h' & E & Hr & Hi & Hlater).
    exists r, h'. repeat split; assumption.
Qed.

(** A producer that never returns, a pool with an order of its own, and a
    fold that appends in place to the list [[4]]. *)
Lemma nonpositive_limit_pulls_nothing_witness :
  evaluate (Some (-3)%Z) (from_lambda (@hangs nat nat)) 1 5 = Some ([], 5) /\
  par_evaluate (-3) (ahead_by 9 (in_the_order [2; 0; 1]))
      (from_lambda (@hangs nat nat)) 0 5
    = Some ([], 5) /\
  exists r h',
    reduce (InPlace (fun acc x => acc ++ [x])) 0 (Some (-3)%Z)
        (from_lambda (@hangs nat nat)) 1 5 {[0 := [4]]}
      = Some (r, 5, h') /\
    h' !! r = Some [4] /\ h' !! 0 = Some [4] /\
    forall b', <[0 := b']> h' !! r = Some [4].
Proof.
  apply (nonpositive_limit_pulls_nothing (from_lambda (@hangs nat nat)) (-3) 0 5
           (ahead_by 9 (in_the_order [2; 0; 1]))
           (InPlace (fun acc x => acc ++ [x])) {[0 := [4]]} 0 [4]).
  - lia.
  - reflexivity.
Defined.

(** ** Streams that agree pull by pull *)

Section Agreement.
Context {W A : Type}.
Implicit Types (s t : LazyStream W A).

Lemma safe_iter_agree s t limit fuel :
  (forall w, _generator s fuel w = _generator t fuel w) ->
  forall st, __safe_iter limit s fuel st = __safe_iter limit t fuel st.
Proof.
  intros H [[|i|] w]; cbn [__safe_iter]; unfold safe_iter_body;
    rewrite ?H; reflexivity.
Qed.

Lemma evaluate_loop_agree {St} (it it' : Iterator St A) fuel :
  (forall st, it fuel st = it' fuel st) ->
  forall n output st,
    evaluate_loop it fuel n output st = evaluate_loop it' fuel n output st.
Proof.
  intros H. induction n as [|n IH]; intros output st; [reflexivity|].
  cbn [evaluate_loop]. rewrite H.
  destruct (it' fuel st) as [[[v|] st']|]; try reflexivity. apply IH.
Qed.

Lemma evaluate_agree s t limit fuel w :
  (forall w, _generator s fuel w = _generator t fuel w) ->
  evaluate limit s fuel w = evaluate limit t fuel w.
Proof.
  intros H. unfold evaluate.
  rewrite (evaluate_loop_agree _ _ fuel (safe_iter_agree s t limit fuel H)).
  reflexivity.
Qed.

End Agreement.

(** X2. [map] composes and has an identity, pull by pull and for every
    stream: a pull of [map(f).map(g)] is a pull of [map] of the composed
    function, and a pull of [map] of the identity is a pull of the stream
    itself; so the evaluations agree as well, under every limit. *)
Theorem map_composes {W A B C : Type} (f : A -> B) (g : B -> C)
    (self : LazyStream W A) (limit : option Z) (fuel : nat) (w : W) :
  let '(first, w1) := map f self w in
  let '(second, w2) := map g first w1 in
  let '(fused, w3) := map (fun a => g (f a)) self w in
  let '(same, w4) := map (fun a => a) self w in
  w2 = w /\
  _generator second fuel w = _generator fused fuel w /\
  evaluate limit second fuel w = evaluate limit fused fuel w /\
  _generator same fuel w = _generator self fuel w /\
  evaluate limit same fuel w = evaluate limit self fuel w.
Proof.
  cbn [map].
  assert (Hfuse : forall w',
            _generator (map g (map f self w).1 w).1 fuel w'
            = _generator (map (fun a => g (f a)) self w).1 fuel w').
  { intros w'. rewrite !map_generator.
    destruct (_generator self fuel w') as [[[a|] w'']|]; reflexivity. }
  assert (Hid : forall w',
            _generator (map (fun a => a) self w).1 fuel w'
            = _generator self fuel w').
  { intros w'. rewrite map_generator.
    destruct (_generator self fuel w') as [[[a|] w'']|]; reflexivity. }
  split; [reflexivity|]. split; [apply Hfuse|]. split.
  - apply (evaluate_agree _ _ limit fuel w Hfuse).
  - split; [apply Hid|]. apply (evaluate_agree _ _ limit fuel w Hid).
Qed.

(** ** Streams that run dry *)

Section Unfolding.
Context {W A : Type}.
Implicit Types (self : LazyStream W A) (ys : list A) (w : W).

Lemma safe_iter_resumed (limit : option Z) self fuel (g : generator Z) i w :
  resume_at g = Some i ->
  __safe_iter limit self fuel (g, w) = safe_iter_body limit self fuel i w.
Proof. destruct g; cbn; intros [= <-]; reflexivity. Qed.

Lemma evaluate_loop_unfolds self fuel w ys w' :
  unfolds self fuel w ys w' ->
  forall n output (g : generator Z) i,
    resume_at g = Some i -> length ys < n ->
    evaluate_loop (__safe_iter None self) fuel n output (g, w)
      = Some (output ++ ys, (GEN_CLOSED, w')).
Proof.
  induction 1 as [w w' Hstop | w v w1 ys w' Hval _ IH];
    intros n output g i Hg Hn;
    (destruct n as [|n]; [simpl in Hn; lia|]);
    cbn [evaluate_loop]; rewrite (safe_iter_unbounded _ _ _ _ _ Hg).
  - rewrite Hstop, app_nil_r. reflexivity.
  - rewrite Hval.
    rewrite (IH n _ (GEN_SUSPENDED (i + 1)%Z) (i + 1)%Z eq_refl)
      by (simpl in Hn; lia).
    rewrite <- app_assoc. reflexivity.
Qed.

Lemma evaluate_unfolds self fuel w ys w' :
  unfolds self fuel w ys w' -> length ys < fuel ->
  evaluate None self fuel w = Some (ys, w').
Proof.
  intros H Hfuel. unfold evaluate.
  rewrite (evaluate_loop_unfolds _ _ _ _ _ H fuel [] GEN_CREATED 0%Z eq_refl Hfuel).
  reflexivity.
Qed.

Lemma evaluate_loop_unfolds_limit self fuel (L : Z) w ys w' :
  unfolds self fuel w ys w' ->
  forall n output (g : generator Z) i,
    resume_at g = Some i -> length ys < n ->
    let k := Z.to_nat (L - i) in
    exists w1,
      evaluate_loop (__safe_iter (Some L) self) fuel n output (g, w)
        = Some (output ++ take k ys, (GEN_CLOSED, w1)) /\
      (k <= length ys -> unfolds self fuel w1 (drop k ys) w') /\
      (length ys < k -> w1 = w').
Proof.
  induction 1 as [w w' Hstop | w v w1 ys w' Hval Hrest IH];
    intros n output g i Hg Hn k; subst k;
    (destruct n as [|n]; [simpl in Hn; lia|]);
    cbn [evaluate_loop]; rewrite (safe_iter_resumed _ _ _ _ _ _ Hg);
    unfold safe_iter_body; cbn [within];
    destruct (Z.ltb_spec i L) as [Hlt | Hge].
  - rewrite Hstop. exists w'. rewrite take_nil, app_nil_r.
    split; [reflexivity|]. split; [simpl; lia|reflexivity].
  - exists w. replace (Z.to_nat (L - i)) with 0 by lia.
    cbn [take drop]. rewrite app_nil_r.
    split; [reflexivity|]. split; [intros _; constructor; exact Hstop|].
    simpl; lia.
  - rewrite Hval.
    destruct (IH n (output ++ [v]) (GEN_SUSPENDED (i + 1)%Z) (i + 1)%Z eq_refl)
      as (w2 & E & Hle & Hgt); [simpl in Hn; lia|].
    exists w2. rewrite E.
    replace (Z.to_nat (L - i)) with (S (Z.to_nat (L - (i + 1)))) by lia.
    cbn [take drop length]. rewrite <- app_assoc.
    split; [reflexivity|]. split; intros Hk; [apply Hle | apply Hgt]; lia.
  - exists w. replace (Z.to_nat (L - i)) with 0 by lia.
    cbn [take drop]. rewrite app_nil_r.
    split; [reflexivity|].
    split; [intros _; econstructor; eassumption|simpl; lia].
Qed.

End Unfolding.

Lemma unfolds_source {A : Type} (xs : list A) fuel : forall log,
  unfolds source fuel (log, xs) xs (log ++ replicate (S (length xs)) tt, []).
Proof.
  induction xs as [|x xs IH]; intros log.
  - apply unfolds_stop. reflexivity.
  - eapply unfolds_value; [reflexivity|].
    cbn [length]. rewrite <- replicate_snoc. apply IH.
Qed.

(** X3. For every stream whose pulls from store [w] give [ys] and then
    [StopIteration]: [evaluate()] returns [ys]; [evaluate(L)] returns the
    first [L] of them, and when [L] does not exceed their number it leaves
    the stream where a following [evaluate()] returns exactly the others.
    Nothing is lost, repeated or pulled ahead between the two calls. *)
Theorem evaluate_resumes {W A : Type} (self : LazyStream W A) (fuel : nat)
    (L : Z) (w w' : W) (ys : list A) :
  unfolds self fuel w ys w' -> length ys < fuel ->
  evaluate None self fuel w = Some (ys, w') /\
  exists w1,
    evaluate (Some L) self fuel w = Some (take (Z.to_nat L) ys, w1) /\
    ((L <= Z.of_nat (length ys))%Z ->
       evaluate None self fuel w1 = Some (drop (Z.to_nat L) ys, w')) /\
    ((Z.of_nat (length ys) < L)%Z -> w1 = w').
Proof.
  intros H Hfuel. split; [apply (evaluate_unfolds _ _ _ _ _ H Hfuel)|].
  destruct (evaluate_loop_unfolds_limit self fuel L w ys w' H fuel []
              GEN_CREATED 0%Z eq_refl Hfuel) as (w1 & E & Hle & Hgt).
  rewrite Z.sub_0_r in E, Hle, Hgt.
  exists w1. unfold evaluate. rewrite E. split; [reflexivity|]. split.
  - intros HL. apply evaluate_unfolds; [apply Hle; lia|].
    rewrite length_drop. lia.
  - intros HL. apply Hgt. lia.
Qed.

Lemma evaluate_resumes_witness :
  evaluate None source 6 ([], [1; 2; 3; 4; 5])
    = Some ([1; 2; 3; 4; 5], ([tt; tt; tt; tt; tt; tt], [])) /\
  exists w1,
    evaluate (Some 2%Z) source 6 ([], [1; 2; 3; 4; 5]) = Some ([1; 2], w1) /\
    ((2 <= 5)%Z ->
       evaluate None source 6 w1
         = Some ([3; 4; 5], ([tt; tt; tt; tt; tt; tt], []))) /\
    ((5 < 2)%Z -> w1 = ([tt; tt; tt; tt; tt; tt], [])).
Proof.
  apply (evaluate_resumes source 6 2 ([], [1; 2; 3; 4; 5])
           ([tt; tt; tt; tt; tt; tt], []) [1; 2; 3; 4; 5]).
  - apply (unfolds_source [1; 2; 3; 4; 5] 6 []).
  - simpl. lia.
Defined.

(** ** Operators over streams that run dry *)

Section OperatorsUnfold.
Context {W A : Type}.
Implicit Types (self : LazyStream W A) (ys : list A) (w : W).

Lemma unfolds_map {B} (f : A -> B) self w0 fuel w ys w' :
  unfolds self fuel w ys w' ->
  unfolds (map f self w0).1 fuel w (List.map f ys) w'.
Proof.
  induction 1 as [w w' Hstop | w v w1 ys w' Hval _ IH]; cbn [List.map].
  - apply unfolds_stop. rewrite map_generator, Hstop. reflexivity.
  - eapply unfolds_value; [|exact IH].
    rewrite map_generator, Hval. reflexivity.
Qed.

(** One pull of a filtered stream: it raises when no value to come passes
    the predicate, and otherwise yields the first that does and leaves the
    source right after it. *)
Lemma filter_loop_unfolds (p : A -> bool) self fuel w ys w' :
  unfolds self fuel w ys w' ->
  forall n (it : generator Z) i,
    resume_at it = Some i -> length ys < n ->
    (List.filter p ys = [] /\
     filter_loop p self fuel n it w = Some (StopIteration, (GEN_CLOSED, w'))) \/
    (exists y it' i' w1 ys1 pre,
       filter_loop p self fuel n it w
         = Some (Value y, (GEN_SUSPENDED it', w1)) /\
       resume_at it' = Some i' /\
       unfolds self fuel w1 ys1 w' /\
       List.filter p ys = y :: List.filter p ys1 /\
       length ys1 < length ys /\
       ys = pre ++ y :: ys1 /\ List.filter p pre = [] /\ p y = true).
Proof.
  induction 1 as [w w' Hstop | w v w1 ys w' Hval Hrest IH];
    intros n it i Hit Hn; (destruct n as [|n]; [simpl in Hn; lia|]);
    cbn [filter_loop]; rewrite (safe_iter_unbounded _ _ _ _ _ Hit).
  - rewrite Hstop. left. split; reflexivity.
  - rewrite Hval. cbn [List.filter length]. destruct (p v) eqn:Hp.
    + right. exists v, (GEN_SUSPENDED (i + 1)%Z), (i + 1)%Z, w1, ys, [].
      repeat split; [exact Hrest | lia | exact Hp].
    + destruct (IH n (GEN_SUSPENDED (i + 1)%Z) (i + 1)%Z eq_refl)
        as [[Hnil E]
           | (y & it' & i' & w2 & ys1 & pre & E & Hit' & Hu & Hf & Hlen
              & Hys & Hpre & Hy)];
        [simpl in Hn; lia| |].
      * left. split; assumption.
      * right. exists y, it', i', w2, ys1, (v :: pre).
        repeat split; try assumption; [lia | rewrite Hys; reflexivity |].
        cbn [List.filter]. rewrite Hp. exact Hpre.
Qed.

Lemma unfolds_filter (p : A -> bool) self w0 fuel w' : forall m ys w G it i,
  length ys <= m ->
  unfolds self fuel w ys w' -> length ys < fuel ->
  inner_iter G = Some it -> resume_at it = Some i ->
  unfolds (filter p self w0).1 fuel (G, w) (List.filter p ys) (GEN_CLOSED, w').
Proof.
  induction m as [|m IH]; intros ys w G it i Hm Hu Hfuel HG Hit;
    destruct (filter_loop_unfolds p self fuel w ys w' Hu fuel it i Hit Hfuel)
      as [[Hnil E]
         | (y & it' & i' & w1 & ys1 & pre & E & Hit' & Hu1 & Hf & Hlen & _)].
  - rewrite Hnil. apply unfolds_stop. cbn [filter from_iterator fst _generator].
    rewrite (filter_iterator_running p self fuel G it w HG). exact E.
  - lia.
  - rewrite Hnil. apply unfolds_stop. cbn [filter from_iterator fst _generator].
    rewrite (filter_iterator_running p self fuel G it w HG). exact E.
  - rewrite Hf. eapply unfolds_value.
    + cbn [filter from_iterator fst _generator].
      rewrite (filter_iterator_running p self fuel G it w HG). exact E.
    + apply (IH ys1 w1 (GEN_SUSPENDED it') it' i'); try assumption;
        try reflexivity; lia.
Qed.

(** Draining a filtered stream under a limit: the source is pulled up to
    the last value handed out and no further. *)
Lemma evaluate_loop_filter_limit (p : A -> bool) self w0 fuel (L : Z) w' :
  forall m ys w n output (go : generator Z) io G (it : generator Z) i,
  length ys <= m ->
  unfolds self fuel w ys w' -> length ys < fuel -> length ys < n ->
  resume_at go = Some io -> inner_iter G = Some it -> resume_at it = Some i ->
  let k := Z.to_nat (L - io) in
  exists G1 w1 pre rest,
    evaluate_loop (__safe_iter (Some L) (filter p self w0).1) fuel n output
        (go, (G, w))
      = Some (output ++ take k (List.filter p ys), (GEN_CLOSED, (G1, w1))) /\
    ys = pre ++ rest /\
    List.filter p pre = take k (List.filter p ys) /\
    (k <= length (List.filter p ys) ->
       unfolds self fuel w1 rest w' /\
       (pre = [] \/ exists pre' y, pre = pre' ++ [y] /\ p y = true)) /\
    (length (List.filter p ys) < k -> rest = [] /\ w1 = w').
Proof.
  induction m as [|m IH];
    intros ys w n output go io G it i Hm Hu Hfuel Hn Hgo HG Hit k; subst k;
    (destruct n as [|n]; [lia|]);
    cbn [evaluate_loop]; rewrite (safe_iter_resumed _ _ _ _ _ _ Hgo);
    unfold safe_iter_body; cbn [within];
    (destruct (Z.ltb_spec io L) as [Hlt | Hge];
     [| exists G, w, [], ys;
        replace (Z.to_nat (L - io)) with 0 by lia;
        cbn [take]; rewrite app_nil_r;
        repeat split; [exact Hu | left; reflexivity | lia | lia]]);
    cbn [filter from_iterator fst _generator];
    rewrite (filter_iterator_running p self fuel G it w HG);
    destruct (filter_loop_unfolds p self fuel w ys w' Hu fuel it i Hit Hfuel)
      as [[Hnil E]
         | (y & it' & i' & w1 & ys1 & pre & E & Hit' & Hu1 & Hf & Hlen
            & Hys & Hpre & Hy)];
    rewrite E.
  - exists GEN_CLOSED, w', ys, []. rewrite Hnil, take_nil, !app_nil_r.
    repeat split; try assumption; cbn [length] in *; lia.
  - lia.
  - exists GEN_CLOSED, w', ys, []. rewrite Hnil, take_nil, !app_nil_r.
    repeat split; try assumption; cbn [length] in *; lia.
  - destruct (IH ys1 w1 n (output ++ [y]) (GEN_SUSPENDED (io + 1)%Z) (io + 1)%Z
                (GEN_SUSPENDED it') it' i') as
        (G1 & w2 & pre1 & rest & E1 & Hys1 & Hpre1 & Hle & Hgt);
      try assumption; try reflexivity; try lia.
    exists G1, w2, (pre ++ y :: pre1), rest.
    cbn [filter from_iterator fst _generator] in E1. rewrite E1, Hf.
    replace (Z.to_nat (L - io)) with (S (Z.to_nat (L - (io + 1)))) by lia.
    cbn [take length]. rewrite <- !app_assoc. cbn [app].
    split; [reflexivity|]. split; [rewrite Hys, Hys1; reflexivity|]. split.
    { rewrite List.filter_app, Hpre. cbn [app List.filter].
      rewrite Hy, Hpre1. reflexivity. }
    split.
    + intros Hk. destruct Hle as [Hrest Hlast]; [lia|]. split; [exact Hrest|].
      right. destruct Hlast as [-> | (pre' & z & -> & Hz)].
      * exists pre, y. split; [reflexivity|exact Hy].
      * exists (pre ++ y :: pre'), z.
        split; [rewrite <- app_assoc; reflexivity|exact Hz].
    + intros Hk. apply Hgt. lia.
Qed.

Lemma unfolds_map_enumerate {B} (f : Z -> A -> B) self w0 fuel w ys w' :
  unfolds self fuel w ys w' ->
  forall G count (it : generator Z) i,
    enumerate_at G = Some (count, it) -> resume_at it = Some i ->
    unfolds (map_enumerate f self w0).1 fuel (G, w)
      (imap (fun n a => f (count + Z.of_nat n)%Z a) ys) (GEN_CLOSED, w').
Proof.
  induction 1 as [w w' Hstop | w v w1 ys w' Hval _ IH];
    intros G count it i HG Hit;
    assert (Hpull : _generator (map_enumerate f self w0).1 fuel (G, w)
                    = map_enumerate_step f self fuel count it w)
      by (destruct G as [|[c g]|]; cbn in HG; inversion HG; reflexivity);
    unfold map_enumerate_step in Hpull;
    rewrite (safe_iter_unbounded _ _ _ _ _ Hit) in Hpull.
  - rewrite Hstop in Hpull. apply unfolds_stop. exact Hpull.
  - rewrite Hval in Hpull. rewrite imap_cons. eapply unfolds_value.
    + rewrite Hpull. cbn [Z.of_nat]. rewrite Z.add_0_r. reflexivity.
    + rewrite (imap_ext _ (fun n a => f (count + 1 + Z.of_nat n)%Z a)).
      * apply (IH (GEN_SUSPENDED ((count + 1)%Z, GEN_SUSPENDED (i + 1)%Z))
                 (count + 1)%Z (GEN_SUSPENDED (i + 1)%Z) (i + 1)%Z);
          reflexivity.
      * intros n a _. cbn. f_equal. lia.
Qed.

Lemma unfolds_iter self fuel w ys w' :
  unfolds self fuel w ys w' ->
  forall (g : generator Z) i,
    resume_at g = Some i ->
    unfolds (from_iterator (__iter__ self)) fuel (g, w) ys (GEN_CLOSED, w').
Proof.
  induction 1 as [w w' Hstop | w v w1 ys w' Hval _ IH]; intros g i Hg.
  - apply unfolds_stop. cbn [from_iterator _generator]. unfold __iter__.
    rewrite (safe_iter_unbounded _ _ _ _ _ Hg), Hstop. reflexivity.
  - eapply unfolds_value.
    + cbn [from_iterator _generator]. unfold __iter__.
      rewrite (safe_iter_unbounded _ _ _ _ _ Hg), Hval. reflexivity.
    + apply (IH (GEN_SUSPENDED (i + 1)%Z) (i + 1)%Z). reflexivity.
Qed.

End OperatorsUnfold.

Lemma filter_twice {A : Type} (p q : A -> bool) (ys : list A) :
  List.filter q (List.filter p ys) = List.filter (fun a => p a && q a) ys.
Proof.
  induction ys as [|y ys IH]; [reflexivity|].
  cbn [List.filter]. destruct (p y); cbn [andb List.filter]; rewrite IH;
    reflexivity.
Qed.

Lemma filter_after_map {A B : Type} (f : A -> B) (p : B -> bool) (ys : list A) :
  List.filter p (List.map f ys) = List.map f (List.filter (fun a => p (f a)) ys).
Proof.
  induction ys as [|y ys IH]; [reflexivity|].
  cbn [List.filter List.map]. destruct (p (f y)); cbn [List.map]; rewrite IH;
    reflexivity.
Qed.

(** X4. Filters fuse.  For every stream whose pulls give [ys] and then
    [StopIteration], [filter(p).evaluate()] returns the values of [ys] that
    pass [p], in order, and [filter(p).filter(q).evaluate()] returns what
    [filter(lambda a: p(a) and q(a)).evaluate()] returns; each leaves the
    stream's own store as draining the stream itself would. *)
Theorem filter_fuses {W A : Type} (p q : A -> bool) (self : LazyStream W A)
    (fuel : nat) (w w' : W) (ys : list A) :
  unfolds self fuel w ys w' -> length ys < fuel ->
  let '(first, w1) := filter p self w in
  let '(second, w2) := filter q first w1 in
  let '(both, w3) := filter (fun a => p a && q a) self w in
  evaluate None first fuel w1 = Some (List.filter p ys, (GEN_CLOSED, w')) /\
  evaluate None second fuel w2
    = Some (List.filter (fun a => p a && q a) ys,
            (GEN_CLOSED, (GEN_CLOSED, w'))) /\
  evaluate None both fuel w3
    = Some (List.filter (fun a => p a && q a) ys, (GEN_CLOSED, w')).
Proof.
  intros Hu Hfuel. cbn [filter].
  assert (Hlen : forall r : A -> bool, length (List.filter r ys) < fuel).
  { intros r. pose proof (List.filter_length_le r ys). lia. }
  assert (H1 : forall r : A -> bool,
            unfolds (filter r self w).1 fuel (GEN_CREATED, w)
              (List.filter r ys) (GEN_CLOSED, w')).
  { intros r. apply (unfolds_filter r self w fuel w' (length ys) ys w
                       GEN_CREATED GEN_CREATED 0%Z); auto. }
  split; [|split].
  - apply (evaluate_unfolds _ _ _ _ _ (H1 p) (Hlen p)).
  - rewrite <- filter_twice. apply evaluate_unfolds.
    + apply (unfolds_filter q _ (GEN_CREATED, w) fuel (GEN_CLOSED, w')
               (length (List.filter p ys)) _ (GEN_CREATED, w)
               GEN_CREATED GEN_CREATED 0%Z); auto. apply (H1 p).
    + pose proof (List.filter_length_le q (List.filter p ys)).
      specialize (Hlen p). lia.
  - apply (evaluate_unfolds _ _ _ _ _ (H1 _) (Hlen _)).
Qed.

Lemma filter_fuses_witness :
  let '(first, w1) := filter Nat.even source ([], [0; 1; 2; 3; 4; 5; 6]) in
  let '(second, w2) := filter (fun a => 2 <? a) first w1 in
  let '(both, w3) := filter (fun a => Nat.even a && (2 <? a)) source
                       ([], [0; 1; 2; 3; 4; 5; 6]) in
  evaluate None first 8 w1
    = Some ([0; 2; 4; 6], (GEN_CLOSED, (replicate 8 tt, []))) /\
  evaluate None second 8 w2
    = Some ([4; 6], (GEN_CLOSED, (GEN_CLOSED, (replicate 8 tt, [])))) /\
  evaluate None both 8 w3 = Some ([4; 6], (GEN_CLOSED, (replicate 8 tt, []))).
Proof.
  apply (filter_fuses Nat.even (fun a => 2 <? a) source 8
           ([], [0; 1; 2; 3; 4; 5; 6]) (replicate 8 tt, [])
           [0; 1; 2; 3; 4; 5; 6]).
  - apply (unfolds_source [0; 1; 2; 3; 4; 5; 6] 8 []).
  - simpl. lia.
Defined.

(** X5. [filter] and [map] commute.  For every stream whose pulls give [ys]
    and then [StopIteration], mapping [f] and then filtering by [p] returns
    the same list as filtering by [lambda a: p(f(a))] and then mapping [f],
    namely [f] over the values of [ys] whose image passes [p]. *)
Theorem filter_map_commute {W A B : Type} (f : A -> B) (p : B -> bool)
    (self : LazyStream W A) (fuel : nat) (w w' : W) (ys : list A) :
  unfolds self fuel w ys w' -> length ys < fuel ->
  let '(mapped, w1) := map f self w in
  let '(map_filter, w2) := filter p mapped w1 in
  let '(filtered, w3) := filter (fun a => p (f a)) self w in
  let '(filter_map, w4) := map f filtered w3 in
  evaluate None map_filter fuel w2
    = Some (List.map f (List.filter (fun a => p (f a)) ys), (GEN_CLOSED, w')) /\
  evaluate None filter_map fuel w4
    = Some (List.map f (List.filter (fun a => p (f a)) ys), (GEN_CLOSED, w')).
Proof.
  intros Hu Hfuel. cbn [filter map]. split.
  - rewrite <- filter_after_map. apply evaluate_unfolds.
    + apply (unfolds_filter p _ w fuel w' (length (List.map f ys)) _ w
               GEN_CREATED GEN_CREATED 0%Z); auto.
      * apply (unfolds_map f self w fuel w ys w' Hu).
      * rewrite length_map. exact Hfuel.
    + pose proof (List.filter_length_le p (List.map f ys)) as Hle.
      rewrite length_map in Hle. lia.
  - apply evaluate_unfolds.
    + apply (unfolds_map f _ (GEN_CREATED, w)).
      apply (unfolds_filter _ self w fuel w' (length ys) ys w
               GEN_CREATED GEN_CREATED 0%Z); auto.
    + rewrite length_map.
      pose proof (List.filter_length_le (fun a => p (f a)) ys). lia.
Qed.

Lemma filter_map_commute_witness :
  let '(mapped, w1) := map (fun a => a * 10) source ([], [1; 2; 3; 4]) in
  let '(map_filter, w2) := filter (fun b => 15 <? b) mapped w1 in
  let '(filtered, w3) := filter (fun a => 15 <? a * 10) source
                           ([], [1; 2; 3; 4]) in
  let '(filter_map, w4) := map (fun a => a * 10) filtered w3 in
  evaluate None map_filter 5 w2
    = Some ([20; 30; 40], (GEN_CLOSED, (replicate 5 tt, []))) /\
  evaluate None filter_map 5 w4
    = Some ([20; 30; 40], (GEN_CLOSED, (replicate 5 tt, []))).
Proof.
  apply (filter_map_commute (fun a => a * 10) (fun b => 15 <? b) source 5
           ([], [1; 2; 3; 4]) (replicate 5 tt, []) [1; 2; 3; 4]).
  - apply (unfolds_source [1; 2; 3; 4] 5 []).
  - simpl. lia.
Defined.

(** X6. [map_enumerate] numbers what the stream it is built on yields, from
    zero, in pull order.  For every stream whose pulls give [ys] and then
    [StopIteration], [map_enumerate(f).evaluate()] returns
    [f(0, ys[0]), f(1, ys[1]), ...]; built on a filtered stream it numbers
    the values that passed the filter, not their places in the source. *)
Theorem map_enumerate_counts {W A B : Type} (f : Z -> A -> B) (p : A -> bool)
    (self : LazyStream W A) (fuel : nat) (w w' : W) (ys : list A) :
  unfolds self fuel w ys w' -> length ys < fuel ->
  let '(numbered, w1) := map_enumerate f self w in
  let '(filtered, w2) := filter p self w in
  let '(kept_numbered, w3) := map_enumerate f filtered w2 in
  evaluate None numbered fuel w1
    = Some (imap (fun n a => f (Z.of_nat n) a) ys, (GEN_CLOSED, w')) /\
  evaluate None kept_numbered fuel w3
    = Some (imap (fun n a => f (Z.of_nat n) a) (List.filter p ys),
            (GEN_CLOSED, (GEN_CLOSED, w'))).
Proof.
  intros Hu Hfuel. cbn [filter map_enumerate].
  assert (Hen : forall V (s : LazyStream V A) v0 v v' zs,
            unfolds s fuel v zs v' -> length zs < fuel ->
            evaluate None (map_enumerate f s v0).1 fuel (GEN_CREATED, v)
              = Some (imap (fun n a => f (Z.of_nat n) a) zs, (GEN_CLOSED, v'))).
  { intros V s v0 v v' zs Hs Hlen. apply evaluate_unfolds.
    - rewrite (imap_ext _ (fun n a => f (0 + Z.of_nat n)%Z a))
        by (intros; reflexivity).
      apply (unfolds_map_enumerate f s v0 fuel v zs v' Hs GEN_CREATED 0%Z
               GEN_CREATED 0%Z); reflexivity.
    - rewrite length_imap. exact Hlen. }
  split.
  - apply (Hen _ self w w w' ys Hu Hfuel).
  - apply (Hen _ _ (GEN_CREATED, w) (GEN_CREATED, w) (GEN_CLOSED, w')).
    + apply (unfolds_filter p self w fuel w' (length ys) ys w
               GEN_CREATED GEN_CREATED 0%Z); auto.
    + pose proof (List.filter_length_le p ys). lia.
Qed.

Lemma map_enumerate_counts_witness :
  let '(numbered, w1) := map_enumerate (fun i a => (i, a)) source
                           ([], [7; 8; 9; 10]) in
  let '(filtered, w2) := filter Nat.even source ([], [7; 8; 9; 10]) in
  let '(kept_numbered, w3) := map_enumerate (fun i a => (i, a)) filtered w2 in
  evaluate None numbered 5 w1
    = Some ([(0%Z, 7); (1%Z, 8); (2%Z, 9); (3%Z, 10)],
            (GEN_CLOSED, (replicate 5 tt, []))) /\
  evaluate None kept_numbered 5 w3
    = Some ([(0%Z, 8); (1%Z, 10)],
            (GEN_CLOSED, (GEN_CLOSED, (replicate 5 tt, [])))).
Proof.
  apply (map_enumerate_counts (fun i a => (i, a)) Nat.even source 5
           ([], [7; 8; 9; 10]) (replicate 5 tt, []) [7; 8; 9; 10]).
  - apply (unfolds_source [7; 8; 9; 10] 5 []).
  - simpl. lia.
Defined.

(** X7. [LazyStream.from_iterator(iter(s))] is [s] until [s] runs dry, and
    stays dry afterwards.  For every stream [s] whose pulls give [ys] and
    then [StopIteration], evaluating the wrapped stream returns [ys] and
    leaves the store of [s] as draining [s] would; after that every pull of
    the wrapped stream raises [StopIteration] without calling the producer
    of [s] (any producer may stand in its place), which [s] itself does not
    promise. *)
Theorem from_iterator_iter {W A : Type} (self self' : LazyStream W A)
    (fuel fuel' : nat) (w w' : W) (ys : list A) :
  unfolds self fuel w ys w' -> length ys < fuel ->
  evaluate None (from_iterator (__iter__ self)) fuel (GEN_CREATED, w)
    = Some (ys, (GEN_CLOSED, w')) /\
  evaluate None self fuel w = Some (ys, w') /\
  _generator (from_iterator (__iter__ self')) fuel' (GEN_CLOSED, w')
    = Some (StopIteration, (GEN_CLOSED, w')).
Proof.
  intros Hu Hfuel. split; [|split].
  - apply evaluate_unfolds; [|exact Hfuel].
    apply (unfolds_iter self fuel w ys w' Hu GEN_CREATED 0%Z eq_refl).
  - apply (evaluate_unfolds _ _ _ _ _ Hu Hfuel).
  - reflexivity.
Qed.

Lemma from_iterator_iter_witness :
  evaluate None (from_iterator (__iter__ source)) 4 (GEN_CREATED, ([], [1; 2; 3]))
    = Some ([1; 2; 3], (GEN_CLOSED, (replicate 4 tt, []))) /\
  evaluate None source 4 ([], [1; 2; 3])
    = Some ([1; 2; 3], (replicate 4 tt, [])) /\
  _generator (from_iterator (__iter__ (from_lambda (@hangs nat _)))) 0
      (GEN_CLOSED, (replicate 4 tt, @nil nat))
    = Some (StopIteration, (GEN_CLOSED, (replicate 4 tt, []))).
Proof.
  apply (from_iterator_iter source (from_lambda hangs) 4 0 ([], [1; 2; 3])
           (replicate 4 tt, []) [1; 2; 3]).
  - apply (unfolds_source [1; 2; 3] 4 []).
  - simpl. lia.
Defined.

(** ** for_each *)

Section ForEachFacts.
Context {J W A : Type} (effect : A -> J -> J) (self : LazyStream W A).
Implicit Types (ys : list A) (w : W) (j : J).

Lemma for_each_pull (w0 : J * W) fuel G (it : generator Z) i j w :
  inner_iter G = Some it -> resume_at it = Some i ->
  _generator (for_each (journals effect) (beside self) w0).1 fuel (G, (j, w)) =
    match _generator self fuel w with
    | None => None
    | Some (Value v, w1) =>
        Some (Value v,
              (GEN_SUSPENDED (GEN_SUSPENDED (i + 1)%Z), (effect v j, w1)))
    | Some (StopIteration, w1) => Some (StopIteration, (GEN_CLOSED, (j, w1)))
    end.
Proof.
  intros HG Hit.
  assert (E : _generator (for_each (journals effect) (beside self) w0).1 fuel
                (G, (j, w))
              = for_each_step (journals effect) (beside self) fuel it (j, w))
    by (destruct G; cbn in HG; inversion HG; reflexivity).
  rewrite E. unfold for_each_step.
  rewrite (safe_iter_unbounded _ _ _ _ _ Hit). cbn [beside _generator on_snd].
  destruct (_generator self fuel w) as [[[v|] w1]|]; reflexivity.
Qed.

Lemma evaluate_loop_for_each (w0 : J * W) fuel (limit : option Z) w ys w' :
  unfolds self fuel w ys w' ->
  forall n output (go : generator Z) io G (it : generator Z) i j,
    resume_at go = Some io -> inner_iter G = Some it -> resume_at it = Some i ->
    length ys < n ->
    let k := passes_left limit io ys in
    exists G1 w1,
      evaluate_loop
          (__safe_iter limit (for_each (journals effect) (beside self) w0).1)
          fuel n output (go, (G, (j, w)))
        = Some (output ++ take k ys,
                (GEN_CLOSED,
                 (G1, (fold_left (fun j a => effect a j) (take k ys) j, w1)))) /\
      (length ys < k -> w1 = w') /\
      (k <= length ys -> unfolds self fuel w1 (drop k ys) w').
Proof.
  induction 1 as [w w' Hstop | w v w1 ys w' Hval Hrest IH];
    intros n output go io G it i j Hgo HG Hit Hn k; subst k;
    (destruct n as [|n]; [simpl in Hn; lia|]);
    cbn [evaluate_loop]; rewrite (safe_iter_resumed _ _ _ _ _ _ Hgo);
    unfold safe_iter_body; destruct (within limit io) eqn:Hw.
  - destruct (passes_left_within _ _ (@nil A) Hw) as (k & -> & _).
    rewrite (for_each_pull _ _ _ _ _ _ _ HG Hit), Hstop.
    exists GEN_CLOSED, w'. rewrite take_nil, app_nil_r.
    split; [reflexivity|]. split; [reflexivity|simpl; lia].
  - rewrite (passes_left_beyond _ _ _ Hw). exists G, w.
    cbn [take drop fold_left]. rewrite app_nil_r.
    split; [reflexivity|]. split; [simpl; lia|].
    intros _. constructor. exact Hstop.
  - destruct (passes_left_within _ _ (v :: ys) Hw) as (k & Hk & Hk').
    rewrite (for_each_pull _ _ _ _ _ _ _ HG Hit), Hval.
    destruct (IH n (output ++ [v]) (GEN_SUSPENDED (io + 1)%Z) (io + 1)%Z
                (GEN_SUSPENDED (GEN_SUSPENDED (i + 1)%Z))
                (GEN_SUSPENDED (i + 1)%Z) (i + 1)%Z (effect v j)
                eq_refl eq_refl eq_refl) as (G1 & w2 & E & Hgt & Hle);
      [simpl in Hn; lia|].
    rewrite (Hk' v ys eq_refl) in E, Hgt, Hle. rewrite Hk.
    exists G1, w2. rewrite E. cbn [take drop fold_left length].
    rewrite <- app_assoc.
    split; [reflexivity|]. split; intros Hlen; [apply Hgt | apply Hle]; lia.
  - rewrite (passes_left_beyond _ _ _ Hw). exists G, w.
    cbn [take drop fold_left]. rewrite app_nil_r.
    split; [reflexivity|]. split; [simpl; lia|].
    intros _. econstructor; eassumption.
Qed.

End ForEachFacts.

(** X8. [for_each] hands every value on unchanged and runs its function
    once for each value handed out, in order, and for no value that was not
    pulled.  For every stream whose pulls give [ys] and then
    [StopIteration], and a function that writes to a journal of its own:
    evaluating [for_each(func)] with a limit of [L] returns the first [L]
    values and leaves the journal written for exactly these; without a
    limit it returns [ys] and the journal is written for all of them. *)
Theorem for_each_runs_effects {J W A : Type} (effect : A -> J -> J)
    (self : LazyStream W A) (limit : option Z) (fuel : nat) (w w' : W)
    (ys : list A) (j : J) :
  unfolds self fuel w ys w' -> length ys < fuel ->
  let '(traced, start) := for_each (journals effect) (beside self) (j, w) in
  let k := match limit with
           | None => length ys
           | Some l => Z.to_nat l
           end in
  exists G1 w1,
    evaluate limit traced fuel start
      = Some (take k ys,
              (G1, (fold_left (fun j a => effect a j) (take k ys) j, w1))) /\
    (limit = None -> w1 = w') /\
    (limit <> None -> k <= length ys -> unfolds self fuel w1 (drop k ys) w').
Proof.
  intros Hu Hfuel. cbn [for_each]. cbv zeta.
  destruct (evaluate_loop_for_each effect self (j, w) fuel limit w ys w' Hu
              fuel [] GEN_CREATED 0%Z GEN_CREATED GEN_CREATED 0%Z j
              eq_refl eq_refl eq_refl Hfuel) as (G1 & w1 & E & Hgt & Hle).
  exists G1, w1. unfold evaluate. cbn [for_each fst] in E. rewrite E.
  destruct limit as [l|]; cbn [passes_left app] in *.
  - rewrite Z.sub_0_r in *. split; [reflexivity|].
    split; [discriminate|]. intros _. exact Hle.
  - rewrite !take_ge by lia. split; [reflexivity|].
    split; [intros _; apply Hgt; lia|]. intros Hne. contradiction.
Qed.

(** A journal that keeps the values seen, newest last: with a limit of 2
    over [1, 2, 3] it holds [1, 2], and [3] is still in the source. *)
Lemma for_each_runs_effects_witness :
  let '(traced, start) :=
    for_each (journals (fun a j => j ++ [a])) (beside source)
      ([], ([], [1; 2; 3])) in
  exists G1 w1,
    evaluate (Some 2%Z) traced 4 start = Some ([1; 2], (G1, ([1; 2], w1))) /\
    (Some 2%Z = None -> w1 = (replicate 4 tt, [])) /\
    (Some 2%Z <> None -> 2 <= 3 ->
     unfolds source 4 w1 [3] (replicate 4 tt, [])).
Proof.
  apply (for_each_runs_effects (fun a j => j ++ [a]) source (Some 2%Z) 4
           ([], [1; 2; 3]) (replicate 4 tt, []) [1; 2; 3] []).
  - apply (unfolds_source [1; 2; 3] 4 []).
  - simpl. lia.
Defined.

(** ** zip of a stream with itself *)

Lemma pair_up_length {A : Type} : forall n (xs : list A),
  length xs <= n -> length (pair_up xs) = Nat.div2 (length xs).
Proof.
  induction n as [|n IH]; intros [|x [|y xs]] Hn; try reflexivity;
    cbn [length] in Hn; try lia.
  cbn [pair_up length Nat.div2]. rewrite IH by lia. reflexivity.
Qed.

Lemma evaluate_loop_zip_self {A : Type} (w0 : list unit * list A) fuel :
  forall n (xs : list A) output (go : generator Z) io (ga : generator Z) ia
         (gb : generator Z) ib log,
  resume_at go = Some io -> resume_at ga = Some ia -> resume_at gb = Some ib ->
  length xs < n ->
  exists ga' gb',
    evaluate_loop (__safe_iter None (LazyStream.zip source source w0).1)
        fuel n output (go, (ga, gb, (log, xs))) =
      Some (output ++ pair_up xs,
            (GEN_CLOSED,
             (ga', gb', (log ++ replicate (S (length xs)) tt, [])))).
Proof.
  induction n as [|n IH];
    intros xs output go io ga ia gb ib log Hgo Hga Hgb Hn; [lia|].
  cbn [evaluate_loop]. rewrite (safe_iter_unbounded _ _ _ _ _ Hgo).
  cbn [LazyStream.zip from_iterator fst _generator zip_next].
  rewrite (safe_iter_unbounded _ _ _ _ _ Hga), source_pull.
  destruct xs as [|x xs].
  - exists GEN_CLOSED, gb. cbn. rewrite app_nil_r. reflexivity.
  - rewrite (safe_iter_unbounded _ _ _ _ _ Hgb), source_pull.
    destruct xs as [|y xs].
    + exists (GEN_SUSPENDED (ia + 1)%Z), GEN_CLOSED. cbn.
      rewrite app_nil_r, <- app_assoc. reflexivity.
    + destruct (IH xs (output ++ [(x, y)]) (GEN_SUSPENDED (io + 1)%Z)
                  (io + 1)%Z (GEN_SUSPENDED (ia + 1)%Z) (ia + 1)%Z
                  (GEN_SUSPENDED (ib + 1)%Z) (ib + 1)%Z
                  ((log ++ [tt]) ++ [tt]) eq_refl eq_refl eq_refl)
        as (ga' & gb' & E); [simpl in Hn; lia|].
      exists ga', gb'.
      cbn [LazyStream.zip from_iterator fst _generator zip_next] in E.
      rewrite E. cbn [pair_up length]. rewrite !replicate_snoc, <- app_assoc.
      reflexivity.
Qed.

(** X9. Zipping a stream with itself pairs up consecutive values: both
    sides pull the same producer, [self] first.  Over a list source
    [x0, x1, x2, x3, ...] the result is [(x0, x1), (x2, x3), ...], half as
    many pairs as there are values, rounded down; a last value without a
    partner is pulled and dropped, and the source is left empty. *)
Theorem zip_with_itself {A : Type} (xs : list A) (extra : nat) :
  let fuel := S (length xs) + extra in
  let '(zipped, start) := LazyStream.zip source source ([], xs) in
  (exists ga gb,
     evaluate None zipped fuel start
       = Some (pair_up xs, (ga, gb, (replicate (S (length xs)) tt, [])))) /\
  length (pair_up xs) = Nat.div2 (length xs).
Proof.
  cbn [LazyStream.zip]. split.
  - destruct (evaluate_loop_zip_self ([], xs) (S (length xs) + extra)
                (S (length xs) + extra) xs [] GEN_CREATED 0%Z GEN_CREATED 0%Z
                GEN_CREATED 0%Z [] eq_refl eq_refl eq_refl) as (ga & gb & E);
      [lia|].
    exists ga, gb. unfold evaluate. cbn [LazyStream.zip fst] in E.
    rewrite E. reflexivity.
  - apply (pair_up_length (length xs)). lia.
Qed.

(** ** par_map *)

Section ParMapFacts.
Context {W A B : Type}.
Implicit Types (self : LazyStream W A) (w : W) (o : outcome B).

Lemma pool_run_filled_single o' o fuel w : forall order,
  pool_run (fun _ w => Some (o', w)) fuel order [Some o] w = Some ([Some o], w).
Proof.
  induction order as [|[|j] order IH]; [reflexivity| |]; cbn [pool_run];
    cbn; exact IH.
Qed.

Lemma pool_run_single o fuel w : forall order,
  pool_run (fun _ w => Some (o, w)) fuel order [None] w =
  Some ((if decide (0 ∈ order) then [Some o] else [None]), w).
Proof.
  induction order as [|[|j] order IH].
  - reflexivity.
  - cbn [pool_run]. cbn. rewrite pool_run_filled_single.
    rewrite decide_True by apply list_elem_of_here. reflexivity.
  - cbn [pool_run]. cbn. rewrite IH.
    destruct (decide (0 ∈ order)) as [Hin | Hout].
    + rewrite decide_True by (apply list_elem_of_further, Hin). reflexivity.
    + rewrite decide_False; [reflexivity|].
      intros Hin. apply elem_of_cons in Hin as [Heq | Hin];
        [discriminate | contradiction].
Qed.

Lemma par_map_generator (f : A -> B) (executor : Executor) self w0 fuel w :
  _generator (par_map f executor self w0).1 fuel w =
    match _generator self fuel w with
    | None => None
    | Some (StopIteration, w') => Some (StopIteration, w')
    | Some (Value a, w') =>
        if decide (0 ∈ run_order executor 1) then Some (Value (f a), w')
        else None
    end.
Proof.
  cbn [par_map fst _generator]. unfold __safe_next.
  rewrite (safe_iter_unbounded self fuel GEN_CREATED w 0%Z eq_refl).
  destruct (_generator self fuel w) as [[[a|] w']|]; try reflexivity.
  rewrite pool_run_single.
  destruct (decide (0 ∈ run_order executor 1)); reflexivity.
Qed.

End ParMapFacts.

(** X10. [par_map] is [map] whenever the pool runs the one call it is
    given: each pull agrees with the pull of [map(f)], and so do the
    evaluations, under every limit.  The source is pulled before anything
    is submitted, so an exhausted source raises [StopIteration] whatever
    the pool does; with a value in hand and a pool that never runs the
    call, the pull does not return. *)
Theorem par_map_is_map {W A B : Type} (f : A -> B) (executor : Executor)
    (self : LazyStream W A) (limit : option Z) (fuel : nat) (w : W) :
  let '(pooled, w1) := par_map f executor self w in
  let '(mapped, w2) := map f self w in
  w1 = w /\
  (0 ∈ run_order executor 1 ->
     _generator pooled fuel w = _generator mapped fuel w /\
     evaluate limit pooled fuel w = evaluate limit mapped fuel w) /\
  (forall w', _generator self fuel w = Some (StopIteration, w') ->
     _generator pooled fuel w = Some (StopIteration, w')) /\
  (0 ∉ run_order executor 1 ->
     forall a w', _generator self fuel w = Some (Value a, w') ->
       _generator pooled fuel w = None).
Proof.
  cbn [par_map map]. split; [reflexivity|].
  pose proof (par_map_generator f executor self w fuel) as Hpull.
  cbn [par_map fst] in Hpull.
  pose proof (map_generator f self w fuel) as Hmap. cbn [map fst] in Hmap.
  split; [|split].
  - intros Hrun.
    assert (Hagree : forall w',
              _generator (par_map f executor self w).1 fuel w'
              = _generator (map f self w).1 fuel w').
    { intros w'. cbn [par_map map fst]. rewrite Hpull, Hmap.
      destruct (_generator self fuel w') as [[[a|] w'']|]; try reflexivity.
      rewrite decide_True by exact Hrun. reflexivity. }
    split; [apply Hagree|].
    apply (evaluate_agree _ _ limit fuel w Hagree).
  - intros w' Hstop. rewrite Hpull, Hstop. reflexivity.
  - intros Hnever a w' Hval. rewrite Hpull, Hval.
    rewrite decide_False by exact Hnever. reflexivity.
Qed.

Lemma par_map_is_map_witness :
  (evaluate None (par_map (fun a => a * 10) in_order source ([], [1; 2; 3])).1 4
       ([], [1; 2; 3])
     = evaluate None (map (fun a => a * 10) source ([], [1; 2; 3])).1 4
         ([], [1; 2; 3])) /\
  _generator (par_map (fun a => a * 10) (in_the_order []) source ([], [])).1 0
      ([], [])
    = Some (StopIteration, ([tt], [])) /\
  _generator (par_map (fun a => a * 10) (in_the_order []) source ([], [1])).1 0
      ([], [1])
    = None.
Proof.
  split; [|split].
  - apply (proj1 (proj2 (par_map_is_map (fun a => a * 10) in_order source None
                           4 ([], [1; 2; 3])))).
    cbn. apply list_elem_of_here.
  - apply (proj1 (proj2 (proj2 (par_map_is_map (fun a => a * 10)
                                  (in_the_order []) source None 0 ([], []))))).
    reflexivity.
  - apply (proj2 (proj2 (proj2 (par_map_is_map (fun a => a * 10)
                                  (in_the_order []) source None 0 ([], [1]))))
             ltac:(cbn; apply not_elem_of_nil) 1 ([tt], [])).
    reflexivity.
Defined.

(** ** par_evaluate and evaluate *)

Section ParallelAndSequential.
Context {W A : Type}.
Implicit Types (self : LazyStream W A) (w : W).



End ParallelAndSequential.



Example par_evaluate_leaves_the_rest :
  par_evaluate 5 in_order yields_stops_hangs 9 0 = Some ([0], 2) /\
  par_evaluate 5 (ahead_by 3 in_order) yields_stops_hangs 9 0 = Some ([0], 2) /\
  evaluate (Some 5%Z) yields_stops_hangs 9 0 = Some ([0], 2).
Proof. repeat split. Qed.

(** ** filter under a limit *)

(** X12. [filter(p).evaluate(L)] pulls the source up to the [L]-th value
    that passes [p] and no further.  For every stream whose pulls give [ys]
    and then [StopIteration], and [L] no larger than the number of values
    of [ys] that pass [p]: the result is the first [L] of these; the values
    pulled are a prefix of [ys] that ends with the last value returned (or
    is empty when [L] is zero), and the values after it are still to come
    from the stream. *)
Theorem filter_pulls_no_further {W A : Type} (p : A -> bool)
    (self : LazyStream W A) (fuel : nat) (L : Z) (w w' : W) (ys : list A) :
  unfolds self fuel w ys w' -> length ys < fuel ->
  (0 <= L <= Z.of_nat (length (List.filter p ys)))%Z ->
  let '(filtered, start) := filter p self w in
  exists G1 w1 pulled rest,
    evaluate (Some L) filtered fuel start
      = Some (take (Z.to_nat L) (List.filter p ys), (G1, w1)) /\
    ys = pulled ++ rest /\
    List.filter p pulled = take (Z.to_nat L) (List.filter p ys) /\
    unfolds self fuel w1 rest w' /\
    (pulled = [] \/ exists before y, pulled = before ++ [y] /\ p y = true).
Proof.
  intros Hu Hfuel HL. cbn [filter].
  destruct (evaluate_loop_filter_limit p self w fuel L w' (length ys) ys w
              fuel [] GEN_CREATED 0%Z GEN_CREATED GEN_CREATED 0%Z)
    as (G1 & w1 & pre & rest & E & Hys & Hpre & Hle & _);
    try assumption; try reflexivity; try lia.
  rewrite Z.sub_0_r in E, Hpre, Hle.
  destruct Hle as [Hrest Hlast]; [lia|].
  exists G1, w1, pre, rest. unfold evaluate.
  cbn [filter fst app] in E. rewrite E.
  repeat split; assumption.
Qed.

(** The first even number of [1, 3, 4, 5, 6]: three values are pulled, 4
    is returned, 5 and 6 stay in the source. *)
Lemma filter_pulls_no_further_witness :
  let '(filtered, start) := filter Nat.even source ([], [1; 3; 4; 5; 6]) in
  exists G1 w1 pulled rest,
    evaluate (Some 1%Z) filtered 6 start = Some ([4], (G1, w1)) /\
    [1; 3; 4; 5; 6] = pulled ++ rest /\
    List.filter Nat.even pulled = [4] /\
    unfolds source 6 w1 rest (replicate 6 tt, []) /\
    (pulled = [] \/ exists before y, pulled = before ++ [y] /\ Nat.even y = true).
Proof.
  apply (filter_pulls_no_further Nat.even source 6 1 ([], [1; 3; 4; 5; 6])
           (replicate 6 tt, []) [1; 3; 4; 5; 6]).
  - apply (unfolds_source [1; 3; 4; 5; 6] 6 []).
  - simpl. lia.
  - simpl. lia.
Defined.

(** ** par_evaluate under any run order *)

(** X13. [par_evaluate] over a list source returns as soon as the handles
    up to the first exhausted one are done, whatever order the pool runs
    the [k] calls in.  The value at place [j] of the result is the element
    of the source at the place at which the pool ran the [j]-th submitted
    call, and the result has [k] values or ends right before the first
    submitted call that ran on the empty source.  When the list is handed
    back the pool has made the calls of its run order up to the last one
    that an awaited handle needed, as many more as it runs ahead, and no
    other: the calls queued behind these have not been made. *)
Theorem par_evaluate_any_run_order {A : Type} (limit : Z)
    (executor : Executor) (xs : list A) (fuel : nat) :
  let k := Z.to_nat limit in
  let order := run_order executor k in
  order ≡ₚ seq 0 k ->
  exists output needed,
    let made := k `min` (needed + runs_ahead executor) in
    par_evaluate limit executor source fuel ([], xs)
      = Some (output, (replicate made tt, drop made xs)) /\
    needed <= k /\
    (forall j v, output !! j = Some v ->
       exists q, order !! q = Some j /\ xs !! q = Some v) /\
    (length output = k \/
     exists q, order !! q = Some (length output) /\ length xs <= q) /\
    (forall j q, j < S (length output) `min` k -> order !! q = Some j ->
       q < needed) /\
    (needed = 0 \/
     exists j, j < S (length output) `min` k /\
               order !! (needed - 1) = Some j /\ 0 < needed).
Proof.
  intros k order Hperm.
  destruct (par_evaluate_ran limit executor xs fuel Hperm)
    as (output & needed & E & Hneeded & _ & P1 & P2 & P3 & P4).
  exists output, needed. cbv zeta. split; [exact E|]. auto.
Qed.

(** Five calls over [10, 20, 30] run in the order 3, 4, 0, 1, 2 by a pool
    that works on demand. *)
Lemma par_evaluate_any_run_order_witness :
  exists output needed,
    let made := 5 `min` (needed + 0) in
    par_evaluate 5 (in_the_order [3; 4; 0; 1; 2]) source 0 ([], [10; 20; 30])
      = Some (output, (replicate made tt, drop made [10; 20; 30])) /\
    needed <= 5 /\
    (forall j v, output !! j = Some v ->
       exists q, [3; 4; 0; 1; 2] !! q = Some j /\ [10; 20; 30] !! q = Some v) /\
    (length output = 5 \/
     exists q, [3; 4; 0; 1; 2] !! q = Some (length output) /\ 3 <= q) /\
    (forall j q, j < S (length output) `min` 5 ->
       [3; 4; 0; 1; 2] !! q = Some j -> q < needed) /\
    (needed = 0 \/
     exists j, j < S (length output) `min` 5 /\
               [3; 4; 0; 1; 2] !! (needed - 1) = Some j /\ 0 < needed).
Proof.
  apply (par_evaluate_any_run_order 5 (in_the_order [3; 4; 0; 1; 2])
           [10; 20; 30] 0).
  change ([3; 4] ++ [0; 1; 2] ≡ₚ [0; 1; 2] ++ [3; 4]).
  apply Permutation_app_comm.
Defined.

(** There the first handle receives 30 and the second finds the source
    empty: four calls have been made when [[30]] is handed back, and the
    third submitted call has not. *)
Example par_evaluate_returns_early :
  par_evaluate 5 (in_the_order [3; 4; 0; 1; 2]) source 0 ([], [10; 20; 30])
    = Some ([30], ([tt; tt; tt; tt], [])).
Proof. reflexivity. Qed.
